(** * camera_pose_visualizer: a shallow embedding of [Runner.vis]

    The script loops over the camera-to-world matrices of a dataset, draws a
    coordinate triad (and optionally an image frustum) per camera into one
    matplotlib 3D axes object, and finally sets cubic axis limits.

    Conventions of the embedding

    - Floating-point tensors are modelled over the rationals [Q]; arithmetic
      is exact and there is no NaN or infinity.  Scalars computed by
      the code are compared with [==] where the value matters and with [=]
      where the code performs literally the same operations.
    - A tensor of shape [(n, r, c)] is a list of [n] matrices, a matrix a list
      of rows, a row a list of scalars.  Indexing out of range raises
      [IndexError], as torch does.
    - Exceptions are a [result] type; [vis] catches nothing, so every
      [Raise] of a callee is the result of [vis].
    - [np.random.rand()] reads a generator state, modelled as the stream of
      samples still to be drawn.
    - The matplotlib axes object is the list of artists added to it, in
      call order; the console is the list of logged lines. *)

From Stdlib Require Import String DecimalString.
From Stdlib Require DecimalNat.
From Stdlib Require Import List Bool Arith ZArith QArith Qminmax Qround Lia Lqa.
Import ListNotations.

Set Implicit Arguments.

(** ** Exceptions *)

Inductive error : Type :=
| IndexError
| RuntimeError
| ValueError
| FileNotFoundError.

Inductive result (A : Type) : Type :=
| Ok (a : A)
| Raise (e : error).

Arguments Ok {A} a.
Arguments Raise {A} e.

Definition bind {A B : Type} (m : result A) (k : A -> result B) : result B :=
  match m with
  | Ok a => k a
  | Raise e => Raise e
  end.

Notation "x <- m ;; k" := (bind m (fun x => k))
  (at level 61, m at next level, right associativity).
Notation "' p <- m ;; k" := (bind m (fun p => k))
  (at level 61, p pattern, m at next level, right associativity).

Fixpoint mapM {A B : Type} (f : A -> result B) (l : list A) : result (list B) :=
  match l with
  | [] => Ok []
  | x :: t => y <- f x ;; ys <- mapM f t ;; Ok (y :: ys)
  end.

(** ** Tensors as lists *)

Definition vec : Type := list Q.
Definition mat : Type := list vec.

(** [t[k]] for a non-negative index. *)
Definition getitem {A : Type} (t : list A) (k : nat) : result A :=
  match nth_error t k with
  | Some x => Ok x
  | None => Raise IndexError
  end.

(** [t[-1]]. *)
Definition getlast {A : Type} (t : list A) : result A :=
  getitem t (length t - 1).

(** [m[:, k]]. *)
Definition column (m : mat) (k : nat) : result vec :=
  mapM (fun row => getitem row k) m.

(** Elementwise binary operation on two 1-d tensors with torch's
    broadcasting: equal sizes pair up, a size-1 operand is repeated, any
    other combination is a shape error. *)
Definition zip_with (f : Q -> Q -> Q) (a b : vec) : vec :=
  map (fun p => f (fst p) (snd p)) (combine a b).

Definition broadcast2 (f : Q -> Q -> Q) (a b : vec) : result vec :=
  if (length a =? length b)%nat then Ok (zip_with f a b)
  else match a, b with
       | [x], _ => Ok (map (fun y => f x y) b)
       | _, [y] => Ok (map (fun x => f x y) a)
       | _, _ => Raise RuntimeError
       end.

(** [torch.min(t, dim=0).values] and [torch.max(t, dim=0).values] of a 2-d
    tensor given as its list of rows; an empty reduction dimension raises. *)
Definition reduce_dim0 (f : Q -> Q -> Q) (rows : list vec) : result vec :=
  match rows with
  | [] => Raise IndexError
  | r :: rs => Ok (fold_left (zip_with f) rs r)
  end.

(** [t.max()] and [t.min()] of a 1-d tensor; an empty tensor raises. *)
Definition reduce_all (f : Q -> Q -> Q) (t : vec) : result Q :=
  match t with
  | [] => Raise RuntimeError
  | x :: xs => Ok (fold_left f xs x)
  end.

(** [t[::k]] on a torch tensor: every k-th element starting at index 0.
    [every k' j l] keeps an element when the countdown [j] is 0 and then
    restarts it at [k' = k - 1]. *)
Fixpoint every {A : Type} (k' j : nat) (l : list A) : list A :=
  match l with
  | [] => []
  | x :: t =>
      match j with
      | O => x :: every k' k' t
      | S j' => every k' j' t
      end
  end.

Definition stride {A : Type} (k : Z) (l : list A) : result (list A) :=
  if (k <=? 0)%Z then Raise ValueError
  else Ok (every (Z.to_nat k - 1) 0 l).

(** [t[::k, ::k]] on a tensor with at least two dimensions. *)
Definition stride2 {A : Type} (k : Z) (g : list (list A)) : result (list (list A)) :=
  rows <- stride k g ;; mapM (stride k) rows.

(** [flat.reshape(h, w, 3)] of [h * w] points. *)
Fixpoint chunks {A : Type} (h w : nat) (l : list A) : list (list A) :=
  match h with
  | O => []
  | S h' => firstn w l :: chunks h' w (skipn w l)
  end.

Definition reshape {A : Type} (h w : nat) (g : list (list A)) : result (list (list A)) :=
  let flat := concat g in
  if (length flat =? h * w)%nat then Ok (chunks h w flat) else Raise RuntimeError.

(** ** Configuration and collaborators *)

Record VisConfig : Type := {
  image_downsample_factor : Z;
  skip_probability : Q;
  image_plane : Q;
  selected_frames : option (list Z);
  show_image : bool
}.

(** A decoded PIL image: its mode and its 8-bit bands, height x width x bands. *)
Record PilImage : Type := {
  mode : string;
  bands : list (list (list N))
}.

Definition vec3 : Type := (Q * Q * Q)%type.
Definition coord : Type := (Q * Q)%type.

(** One ray of a ray bundle. *)
Record Ray : Type := {
  origin : vec3;
  direction : vec3
}.

(** The nerfstudio [Cameras] object, as far as [vis] uses it. *)
Record Cameras : Type := {
  camera_to_worlds : list mat;
  get_image_coords : list (list coord);
  generate_rays : nat -> list (list coord) -> list (list Ray)
}.

Record Runner : Type := {
  config : VisConfig;
  cameras : Cameras;
  image_filenames : list string
}.

(** The file system seen by [Image.open]. *)
Definition FileSystem : Type := string -> option PilImage.

(** The state of numpy's global generator: the samples still to come, each
    in [[0, 1)]. *)
Definition RandomState : Type := nat -> Q.

Definition rand (g : RandomState) : Q * RandomState :=
  (g O, fun n => g (S n)).

Definition unit_samples (g : RandomState) : Prop :=
  forall n, 0 <= g n /\ g n < 1.

(** ** The figure *)

Inductive color : Type :=
| red
| green
| blue
| black
| rgba (r g b a : Q).

Inductive artist : Type :=
| plot (xs ys zs : list Q) (c : color)
| plot_surface (xx yy zz : list (list Q)) (facecolors : list (list vec))
| text (x y z : Q) (s : string) (c : color) (fontsize : Z)
| set_xlabel (s : string)
| set_ylabel (s : string)
| set_zlabel (s : string)
| set_xlim (lo hi : Q)
| set_ylim (lo hi : Q)
| set_zlim (lo hi : Q).

(** [str(i)] *)
Definition str (i : nat) : string := NilEmpty.string_of_uint (Nat.to_uint i).

(** ** The skip test of line 58 *)

Definition Qltb (x y : Q) : bool := negb (Qle_bool y x).

Definition is_not_None {A : Type} (o : option A) : bool :=
  match o with Some _ => true | None => false end.

(** [i not in frames]; vacuous when [frames] is [None], which the
    short-circuit [and] never evaluates. *)
Definition not_in (i : nat) (frames : option (list Z)) : bool :=
  match frames with
  | Some fs => negb (existsb (Z.eqb (Z.of_nat i)) fs)
  | None => true
  end.

(** Python parses [a or (b and c) and d] as [a or ((b and c) and d)]. *)
Definition skip_test (cfg : VisConfig) (sample : Q) (i : nat) : bool :=
  Qltb sample (skip_probability cfg)
  || ((is_not_None (selected_frames cfg) && not_in i (selected_frames cfg))
      && show_image cfg).

(** ** Image loading, lines 91-105 *)

Definition Image_open (fs : FileSystem) (path : string) : result PilImage :=
  match fs path with
  | Some im => Ok im
  | None => Raise FileNotFoundError
  end.

(** [img_pil.convert("RGB")] on an RGBA image drops the alpha band. *)
Definition convert_RGB (im : PilImage) : PilImage :=
  {| mode := "RGB"; bands := map (map (firstn 3)) (bands im) |}.

(** [ToTensor] scales an 8-bit band to [[0, 1]]. *)
Definition to_float (b : N) : Q := Z.of_N b # 255.

(** [transform(img).unsqueeze(0).squeeze().permute((1, 2, 0))]: [squeeze]
    removes every dimension of size 1, so the 3-index [permute] raises
    unless bands, height and width all differ from 1. *)
Definition to_hwc (im : PilImage) : result (list (list vec)) :=
  let h := length (bands im) in
  let w := length (hd [] (bands im)) in
  let c := length (hd [] (hd [] (bands im))) in
  if (h =? 1)%nat || (w =? 1)%nat || (c =? 1)%nat then Raise RuntimeError
  else Ok (map (map (map to_float)) (bands im)).

(** [torch.cat([img, 0.5 * ones], dim=-1)] *)
Definition add_alpha (img : list (list vec)) : list (list vec) :=
  map (map (fun px => px ++ [0.5 * 1])) img.

Definition load_image (fs : FileSystem) (path : string) : result (list (list vec)) :=
  img_pil <- Image_open fs path ;;
  let img_pil := if String.eqb (mode img_pil) "RGBA" then convert_RGB img_pil else img_pil in
  img <- to_hwc img_pil ;;
  Ok (add_alpha img).

(** ** The frustum, lines 107-130 *)

(** [origins + directions * image_plane] for one ray. *)
Definition point_at (depth : Q) (r : Ray) : vec3 :=
  let '(ox, oy, oz) := origin r in
  let '(dx, dy, dz) := direction r in
  (ox + dx * depth, oy + dy * depth, oz + dz * depth).

Definition vec_of (p : vec3) : vec :=
  let '(x, y, z) := p in [x; y; z].

(** [origins[[0, -1, 0, -1], [0, 0, -1, -1]]] *)
Definition corners_of (origins : list (list vec3)) : result (list vec) :=
  first_row <- getitem origins 0 ;;
  last_row <- getlast origins ;;
  c0 <- getitem first_row 0 ;;
  c1 <- getitem last_row 0 ;;
  c2 <- getlast first_row ;;
  c3 <- getlast last_row ;;
  Ok (map vec_of [c0; c1; c2; c3]).

(** [ax.plot([p[0], q[0]], [p[1], q[1]], [p[2], q[2]], color=c)] *)
Definition segment (p q : vec) (c : color) : result artist :=
  p0 <- getitem p 0 ;; q0 <- getitem q 0 ;;
  p1 <- getitem p 1 ;; q1 <- getitem q 1 ;;
  p2 <- getitem p 2 ;; q2 <- getitem q 2 ;;
  Ok (plot [p0; q0] [p1; q1] [p2; q2] c).

(** The mutable locals of [vis] that the loop updates. *)
Record LoopState : Type := {
  rng : RandomState;
  skipped : list nat;
  min_pos : vec;
  max_pos : vec;
  ax : list artist
}.

(** The surface and the corner points of camera [i], lines 91-121. *)
Definition frustum (self : Runner) (fs : FileSystem) (i : nat)
  : result (artist * list vec) :=
  let k := image_downsample_factor (config self) in
  path <- getitem (image_filenames self) i ;;
  img <- load_image fs path ;;
  coords <- stride2 k (get_image_coords (cameras self)) ;;
  img <- stride2 k img ;;
  let ray_bundle := generate_rays (cameras self) i coords in
  origins <- reshape (length img) (length (hd [] img))
               (map (map (point_at (image_plane (config self)))) ray_bundle) ;;
  let xx := map (map (fun p => fst (fst p))) origins in
  let yy := map (map (fun p => snd (fst p))) origins in
  let zz := map (map (fun p => snd p)) origins in
  corners <- corners_of origins ;;
  Ok (plot_surface xx yy zz img, corners).

(** The body of [for corner in corners], lines 122-130. *)
Definition corner_step (camera_position : vec) (st : LoopState) (corner : vec)
  : result LoopState :=
  line <- segment camera_position corner (rgba 0.5 0.5 0.5 0.5) ;;
  new_max <- broadcast2 Qmax (max_pos st) corner ;;
  new_min <- broadcast2 Qmin (min_pos st) corner ;;
  Ok {| rng := rng st; skipped := skipped st;
        min_pos := new_min; max_pos := new_max;
        ax := ax st ++ [line] |}.

Fixpoint for_corners (camera_position : vec) (corners : list vec) (st : LoopState)
  : result LoopState :=
  match corners with
  | [] => Ok st
  | corner :: rest =>
      st' <- corner_step camera_position st corner ;;
      for_corners camera_position rest st'
  end.

(** ** The loop over camera poses, lines 56-140 *)

(** [camera_pose[:3, 3]] *)
Definition translation (camera_pose : mat) : result vec :=
  column (firstn 3 camera_pose) 3.

(** [camera_pose[:3, :3]] *)
Definition rotation (camera_pose : mat) : mat :=
  map (firstn 3) (firstn 3 camera_pose).

(** [camera_position + axis_length * camera_orientation[:, j]] *)
Definition axis_end (camera_position : vec) (axis_length : Q)
  (camera_orientation : mat) (j : nat) : result vec :=
  col <- column camera_orientation j ;;
  broadcast2 Qplus camera_position (map (Qmult axis_length) col).

Definition with_ax (st : LoopState) (a : list artist) : LoopState :=
  {| rng := rng st; skipped := skipped st;
     min_pos := min_pos st; max_pos := max_pos st; ax := a |}.

(** Lines 62-140: what is drawn for a camera that is not skipped. *)
Definition draw_camera (self : Runner) (fs : FileSystem) (i : nat)
  (camera_pose : mat) (st : LoopState) : result LoopState :=
  camera_position <- translation camera_pose ;;
  let camera_orientation := rotation camera_pose in
  let axis_length := 0.8 * image_plane (config self) in
  x_axis <- axis_end camera_position axis_length camera_orientation 0 ;;
  y_axis <- axis_end camera_position axis_length camera_orientation 1 ;;
  z_axis <- axis_end camera_position axis_length camera_orientation 2 ;;
  lx <- segment camera_position x_axis red ;;
  ly <- segment camera_position y_axis green ;;
  lz <- segment camera_position z_axis blue ;;
  let st := with_ax st (ax st ++ [lx; ly; lz]) in
  st <- (if show_image (config self) then
           '(surface, corners) <- frustum self fs i ;;
           for_corners camera_position corners (with_ax st (ax st ++ [surface]))
         else Ok st) ;;
  p0 <- getitem camera_position 0 ;;
  p1 <- getitem camera_position 1 ;;
  p2 <- getitem camera_position 2 ;;
  Ok (with_ax st (ax st ++ [text p0 p1 p2 (str i) black 10])).

(** One iteration of the loop for index [i]. *)
Definition loop_body (self : Runner) (fs : FileSystem) (i : nat)
  (camera_pose : mat) (st : LoopState) : result LoopState :=
  let '(sample, g) := rand (rng st) in
  if skip_test (config self) sample i then
    Ok {| rng := g; skipped := skipped st ++ [i];
          min_pos := min_pos st; max_pos := max_pos st; ax := ax st |}
  else
    draw_camera self fs i camera_pose
      {| rng := g; skipped := skipped st;
         min_pos := min_pos st; max_pos := max_pos st; ax := ax st |}.

(** [for i, camera_pose in enumerate(camera_poses)], started at index [i]. *)
Fixpoint loop (self : Runner) (fs : FileSystem) (i : nat)
  (camera_poses : list mat) (st : LoopState) : result LoopState :=
  match camera_poses with
  | [] => Ok st
  | camera_pose :: rest =>
      st' <- loop_body self fs i camera_pose st ;;
      loop self fs (S i) rest st'
  end.

(** ** [vis] *)

(** What a completed call leaves behind: the figure handed to [plt.show()],
    the console lines, and the final [skipped] list. *)
Record Shown : Type := {
  figure : list artist;
  console : list string;
  skipped_frames : list nat
}.

(** Lines 142-158. *)
Definition world_axes (min_pos max_pos : Q) : list artist :=
  [ plot [0; max_pos] [0; 0] [0; 0] red;
    plot [0; 0] [0; max_pos] [0; 0] green;
    plot [0; 0] [0; 0] [0; max_pos] blue;
    set_xlabel "X"; set_ylabel "Y"; set_zlabel "Z";
    set_xlim min_pos max_pos;
    set_ylim min_pos max_pos;
    set_zlim min_pos max_pos ].

Definition initial_state (g : RandomState) (lo hi : vec) : LoopState :=
  {| rng := g; skipped := []; min_pos := lo; max_pos := hi; ax := [] |}.

Definition vis (self : Runner) (fs : FileSystem) (g : RandomState) : result Shown :=
  let camera_poses := camera_to_worlds (cameras self) in
  positions <- mapM translation camera_poses ;;
  lo <- reduce_dim0 Qmin positions ;;
  hi <- reduce_dim0 Qmax positions ;;
  st <- loop self fs 0 camera_poses (initial_state g lo hi) ;;
  M <- reduce_all Qmax (max_pos st) ;;
  let max_pos := M * 1.1 in
  m <- reduce_all Qmin (min_pos st) ;;
  let min_pos := m * 0.9 in
  Ok {| figure := ax st ++ world_axes min_pos max_pos;
        console := [("skipped " ++ str (length (skipped st)) ++ " images.")%string];
        skipped_frames := skipped st |}.

(** ** Sample data *)

Module Sample.

(** A 3x4 pose with identity rotation at [(x, y, z)]. *)
Definition pose_at (x y z : Q) : mat :=
  [ [1; 0; 0; x];
    [0; 1; 0; y];
    [0; 0; 1; z] ].

Definition pixel_grid : list (list coord) :=
  [ [(0.5, 0.5); (0.5, 1.5); (0.5, 2.5)];
    [(1.5, 0.5); (1.5, 1.5); (1.5, 2.5)] ].

(** A pinhole-like ray generator: rays leave the centre of camera [i]. *)
Definition rays (poses : list mat) (i : nat) (coords : list (list coord))
  : list (list Ray) :=
  let c := match nth_error poses i with
           | Some [[_; _; _; x]; [_; _; _; y]; [_; _; _; z]] => (x, y, z)
           | _ => (0, 0, 0)
           end in
  map (map (fun uv => {| origin := c;
                         direction := (snd uv - 1.5, fst uv - 1, 1) |})) coords.

Definition cams (poses : list mat) : Cameras :=
  {| camera_to_worlds := poses;
     get_image_coords := pixel_grid;
     generate_rays := rays poses |}.

Definition rgb_image : PilImage :=
  {| mode := "RGB";
     bands := [ [[255; 0; 0]; [0; 255; 0]; [0; 0; 255]];
                [[0; 0; 0]; [255; 255; 255]; [51; 102; 204]] ]%N |}.

Definition name_of (i : nat) : string := ("frame_" ++ str i ++ ".png")%string.

Definition names (n : nat) : list string := map name_of (seq 0 n).

(** A disk holding exactly the first [n] frames. *)
Definition disk (n : nat) : FileSystem :=
  fun path => if existsb (String.eqb path) (names n) then Some rgb_image else None.

Definition empty_disk : FileSystem := fun _ => None.

Definition cfg (k : Z) (p plane : Q) (sel : option (list Z)) (img : bool) : VisConfig :=
  {| image_downsample_factor := k; skip_probability := p; image_plane := plane;
     selected_frames := sel; show_image := img |}.

Definition runner (c : VisConfig) (poses : list mat) : Runner :=
  {| config := c; cameras := cams poses;
     image_filenames := names (length poses) |}.

Definition line3 : list mat := [pose_at 0 0 0; pose_at 1 0 0; pose_at 2 0 0].

Definition line8 : list mat :=
  map (fun i => pose_at (inject_Z (Z.of_nat i)) 0 0) (seq 0 8).

(** A generator that keeps returning the same sample. *)
Definition constant (s : Q) : RandomState := fun _ => s.

End Sample.

(** ** The model on concrete inputs *)

Example stride_by_2 : stride 2 [1; 2; 3; 4; 5; 6; 7]%nat = Ok [1; 3; 5; 7]%nat.
Proof. reflexivity. Qed.

Example stride_by_3 : stride 3 [1; 2; 3; 4; 5; 6; 7]%nat = Ok [1; 4; 7]%nat.
Proof. reflexivity. Qed.

Example stride_by_0 : stride 0 [1; 2; 3]%nat = Raise ValueError.
Proof. reflexivity. Qed.

Example skip_test_probability_wins :
  skip_test (Sample.cfg 5 0.5 1 (Some [0]%Z) false) 0.25 0 = true.
Proof. reflexivity. Qed.

Example skip_test_selection_needs_show_image :
  skip_test (Sample.cfg 5 0 1 (Some [1]%Z) false) 0.25 0 = false
  /\ skip_test (Sample.cfg 5 0 1 (Some [1]%Z) true) 0.25 0 = true.
Proof. split; reflexivity. Qed.

(** Three cameras on the x axis, no images, nothing skipped: three triads,
    three labels, limits from the positions alone. *)
Example three_cameras_in_a_row :
  vis (Sample.runner (Sample.cfg 5 0 1 None false) Sample.line3)
    Sample.empty_disk (Sample.constant 0.5)
  = Ok {| figure :=
            [ plot [0; 0 + 0.8 * 1 * 1] [0; 0 + 0.8 * 1 * 0] [0; 0 + 0.8 * 1 * 0] red;
              plot [0; 0 + 0.8 * 1 * 0] [0; 0 + 0.8 * 1 * 1] [0; 0 + 0.8 * 1 * 0] green;
              plot [0; 0 + 0.8 * 1 * 0] [0; 0 + 0.8 * 1 * 0] [0; 0 + 0.8 * 1 * 1] blue;
              text 0 0 0 "0" black 10;
              plot [1; 1 + 0.8 * 1 * 1] [0; 0 + 0.8 * 1 * 0] [0; 0 + 0.8 * 1 * 0] red;
              plot [1; 1 + 0.8 * 1 * 0] [0; 0 + 0.8 * 1 * 1] [0; 0 + 0.8 * 1 * 0] green;
              plot [1; 1 + 0.8 * 1 * 0] [0; 0 + 0.8 * 1 * 0] [0; 0 + 0.8 * 1 * 1] blue;
              text 1 0 0 "1" black 10;
              plot [2; 2 + 0.8 * 1 * 1] [0; 0 + 0.8 * 1 * 0] [0; 0 + 0.8 * 1 * 0] red;
              plot [2; 2 + 0.8 * 1 * 0] [0; 0 + 0.8 * 1 * 1] [0; 0 + 0.8 * 1 * 0] green;
              plot [2; 2 + 0.8 * 1 * 0] [0; 0 + 0.8 * 1 * 0] [0; 0 + 0.8 * 1 * 1] blue;
              text 2 0 0 "2" black 10 ]
            ++ world_axes (0 * 0.9) (2 * 1.1);
          console := ["skipped 0 images."%string];
          skipped_frames := [] |}.
Proof. vm_compute. reflexivity. Qed.

Example no_cameras :
  vis (Sample.runner (Sample.cfg 5 0 1 None false) [])
    Sample.empty_disk (Sample.constant 0.5)
  = Raise IndexError.
Proof. reflexivity. Qed.

Example missing_file_when_shown :
  vis (Sample.runner (Sample.cfg 5 0 1 None true) Sample.line3)
    Sample.empty_disk (Sample.constant 0.5)
  = Raise FileNotFoundError.
Proof. reflexivity. Qed.

(** * Properties *)

(** ** The error monad *)

Lemma bind_Ok (A B : Type) (m : result A) (k : A -> result B) (b : B) :
  bind m k = Ok b <-> exists a, m = Ok a /\ k a = Ok b.
Proof.
  destruct m as [a | e]; simpl; split.
  - intros H; exists a; auto.
  - intros [a' [Ha Hk]]; inversion Ha; subst; assumption.
  - discriminate.
  - intros [a' [Ha _]]; discriminate.
Qed.

Lemma bind_Raise (A B : Type) (m : result A) (k : A -> result B) (e : error) :
  m = Raise e -> bind m k = Raise e.
Proof. intros ->; reflexivity. Qed.

(** Split a successful [bind] in the hypotheses into its two halves. *)
Ltac bind_inv H :=
  let a := fresh "a" in
  let Ha := fresh "E" in
  apply bind_Ok in H; destruct H as [a [Ha H]].

Ltac ok_inv H := inversion H; subst; clear H.

Lemma mapM_length (A B : Type) (f : A -> result B) (l : list A) (l' : list B) :
  mapM f l = Ok l' -> length l' = length l.
Proof.
  revert l'; induction l as [| x t IH]; simpl; intros l' H.
  - ok_inv H; reflexivity.
  - bind_inv H. bind_inv H. ok_inv H. simpl. f_equal. auto.
Qed.

Lemma mapM_Forall2 (A B : Type) (f : A -> result B) (l : list A) (l' : list B) :
  mapM f l = Ok l' <-> Forall2 (fun x y => f x = Ok y) l l'.
Proof.
  revert l'; induction l as [| x t IH]; simpl; intros l'; split; intros H.
  - ok_inv H; constructor.
  - inversion H; reflexivity.
  - bind_inv H. bind_inv H. ok_inv H. constructor; [assumption | apply IH; assumption].
  - inversion H as [| x0 y l0 ys Hxy Hrest]; subst.
    rewrite Hxy; simpl. apply IH in Hrest. rewrite Hrest; reflexivity.
Qed.

Lemma mapM_total (A B : Type) (f : A -> result B) (l : list A) :
  Forall (fun x => exists y, f x = Ok y) l -> exists l', mapM f l = Ok l'.
Proof.
  induction 1 as [| x t [y Hy] _ [ys Hys]]; simpl.
  - eexists; reflexivity.
  - rewrite Hy, Hys; simpl. eexists; reflexivity.
Qed.

Lemma mapM_Raise (A B : Type) (f : A -> result B) (l : list A) (x : A) (e : error) :
  In x l -> f x = Raise e -> exists e', mapM f l = Raise e'.
Proof.
  induction l as [| y t IH]; simpl; [tauto |].
  intros [-> | Hin] Hx.
  - rewrite Hx; eexists; reflexivity.
  - destruct (f y); [| eexists; reflexivity]. simpl.
    destruct (IH Hin Hx) as [e' ->]. eexists; reflexivity.
Qed.

Lemma getitem_Ok (A : Type) (l : list A) (k : nat) (x : A) :
  getitem l k = Ok x <-> nth_error l k = Some x.
Proof.
  unfold getitem; destruct (nth_error l k); split; intros H;
    inversion H; reflexivity.
Qed.

Lemma getitem_Raise (A : Type) (l : list A) (k : nat) :
  (length l <= k)%nat -> getitem l k = Raise IndexError.
Proof.
  intros H. unfold getitem. apply nth_error_None in H. rewrite H. reflexivity.
Qed.

(** ** Strided slicing *)

(** [ceil(n / k)], by the library's ceiling on rationals. *)
Definition ceil_div (n : nat) (k : Z) : Z :=
  Qceiling (Z.of_nat n # Z.to_pos k).

Lemma ceil_div_eq (n : nat) (k : Z) :
  (1 <= k)%Z -> ceil_div n k = ((Z.of_nat n + k - 1) / k)%Z.
Proof.
  intros Hk. unfold ceil_div, Qceiling, Qfloor. simpl.
  rewrite Z2Pos.id by lia.
  set (a := Z.of_nat n).
  assert (Ha : (0 <= a)%Z) by (unfold a; lia).
  pose proof (Z.div_mod (a + k - 1) k ltac:(lia)) as E1.
  pose proof (Z.mod_pos_bound (a + k - 1) k ltac:(lia)) as B1.
  assert (H : (- ((a + k - 1) / k))%Z = (- a / k)%Z)
    by (apply (Z.div_unique (- a) k _ (k - 1 - (a + k - 1) mod k)%Z); lia).
  rewrite <- H. lia.
Qed.

Lemma every_length (A : Type) (k' : nat) (l : list A) (j : nat) :
  (j <= k')%nat -> length (every k' j l) = ((length l + k' - j) / S k')%nat.
Proof.
  revert j; induction l as [| x t IH]; intros j Hj; cbn [every length].
  - symmetry. apply Nat.div_small. lia.
  - destruct j as [| j']; cbn [length].
    + rewrite IH by lia.
      replace (length t + k' - k')%nat with (length t) by lia.
      replace (S (length t) + k' - 0)%nat with (length t + 1 * S k')%nat by lia.
      rewrite Nat.div_add by lia. lia.
    + rewrite IH by lia. reflexivity.
Qed.

Lemma every_nth (A : Type) (k' : nat) (l : list A) (j a : nat) :
  (j <= k')%nat -> nth_error (every k' j l) a = nth_error l (j + a * S k').
Proof.
  revert j a; induction l as [| x t IH]; intros j a Hj; simpl.
  - destruct a, j; reflexivity.
  - destruct j as [| j'].
    + destruct a as [| a']; simpl; [reflexivity |].
      rewrite IH by lia. f_equal.
    + rewrite IH by lia. reflexivity.
Qed.

Lemma stride_spec (A : Type) (k : Z) (l : list A) :
  (1 <= k)%Z ->
  exists l', stride k l = Ok l'
    /\ Z.of_nat (length l') = ceil_div (length l) k
    /\ forall a, nth_error l' a = nth_error l (a * Z.to_nat k).
Proof.
  intros Hk. unfold stride.
  destruct (k <=? 0)%Z eqn:E; [apply Z.leb_le in E; lia |].
  eexists; split; [reflexivity | split].
  - rewrite ceil_div_eq by assumption.
    rewrite every_length by lia.
    replace (S (Z.to_nat k - 1)) with (Z.to_nat k) by lia.
    rewrite Nat2Z.inj_div. f_equal; lia.
  - intros a. rewrite every_nth by lia. simpl.
    replace (S (Z.to_nat k - 1)) with (Z.to_nat k) by lia. reflexivity.
Qed.

Lemma stride_nonpositive (A : Type) (k : Z) (l : list A) :
  (k <= 0)%Z -> stride k l = Raise ValueError.
Proof.
  intros Hk. unfold stride. apply Z.leb_le in Hk. rewrite Hk. reflexivity.
Qed.

(** Element [(a, b)] of a 2-d grid. *)
Definition nth2 {A : Type} (g : list (list A)) (a b : nat) : option A :=
  match nth_error g a with
  | Some row => nth_error row b
  | None => None
  end.

Lemma stride2_spec (A : Type) (k : Z) (g : list (list A)) (W : nat) :
  (1 <= k)%Z ->
  Forall (fun row => length row = W) g ->
  exists g', stride2 k g = Ok g'
    /\ Z.of_nat (length g') = ceil_div (length g) k
    /\ Forall (fun row => Z.of_nat (length row) = ceil_div W k) g'
    /\ forall a b, nth2 g' a b = nth2 g (a * Z.to_nat k) (b * Z.to_nat k).
Proof.
  intros Hk Hrect. unfold stride2.
  destruct (stride_spec g Hk) as [rows [Hrows [Hlen Hnth]]].
  rewrite Hrows; simpl.
  assert (Hsub : Forall (fun row => length row = W) rows).
  { apply Forall_forall. intros row Hin.
    apply In_nth_error in Hin. destruct Hin as [a Ha].
    rewrite Hnth in Ha. apply nth_error_In in Ha.
    rewrite Forall_forall in Hrect. auto. }
  destruct (@mapM_total _ _ (stride k) rows) as [g' Hg'].
  { apply Forall_forall. intros row _.
    destruct (stride_spec row Hk) as [row' [Hrow' _]]. eauto. }
  exists g'. split; [assumption |].
  pose proof Hg' as HF. apply mapM_Forall2 in HF.
  split; [| split].
  - rewrite (mapM_length _ _ Hg'). assumption.
  - clear Hg' Hrows Hlen Hnth. induction HF as [| row row' rs rs' Hrr _ IH].
    + constructor.
    + inversion Hsub as [| ? ? Hw Hsub']; subst.
      constructor; [| auto].
      destruct (stride_spec row Hk) as [r2 [Hr2 [Hl _]]].
      rewrite Hr2 in Hrr. ok_inv Hrr. assumption.
  - intros a b. unfold nth2. rewrite <- Hnth.
    clear Hg' Hrows Hlen Hnth Hsub. revert a.
    induction HF as [| row row' rs rs' Hrr _ IH]; intros a.
    + destruct a; reflexivity.
    + destruct a as [| a']; simpl; [| apply IH].
      destruct (stride_spec row Hk) as [r2 [Hr2 [_ Hn]]].
      rewrite Hr2 in Hrr. ok_inv Hrr. apply Hn.
Qed.

(** ** What one camera adds to the figure *)

Definition gray : color := rgba 0.5 0.5 0.5 0.5.

(** The kind of an artist, with its coordinates forgotten. *)
Inductive mark : Type :=
| stroke (c : color)
| surface
| label (s : string)
| axis_label
| axis_limit.

Definition mark_of (a : artist) : mark :=
  match a with
  | plot _ _ _ c => stroke c
  | plot_surface _ _ _ _ => surface
  | text _ _ _ s _ _ => label s
  | set_xlabel _ | set_ylabel _ | set_zlabel _ => axis_label
  | set_xlim _ _ | set_ylim _ _ | set_zlim _ _ => axis_limit
  end.

(** Axes triad, frustum (surface and four edges) when images are shown,
    frame label. *)
Definition camera_marks (cfg : VisConfig) (i : nat) : list mark :=
  [stroke red; stroke green; stroke blue]
  ++ (if show_image cfg then surface :: repeat (stroke gray) 4 else [])
  ++ [label (str i)].

(** The bound after the corners of one or more frustums were folded in. *)
Fixpoint expand (f : Q -> Q -> Q) (bound : vec) (corners : list vec) : result vec :=
  match corners with
  | [] => Ok bound
  | corner :: rest => b <- broadcast2 f bound corner ;; expand f b rest
  end.

Lemma expand_app (f : Q -> Q -> Q) (cs1 cs2 : list vec) (b b1 : vec) :
  expand f b cs1 = Ok b1 -> expand f b (cs1 ++ cs2) = expand f b1 cs2.
Proof.
  revert b; induction cs1 as [| c cs IH]; simpl; intros b H.
  - ok_inv H; reflexivity.
  - bind_inv H. rewrite E; simpl. auto.
Qed.

Lemma segment_inv (p q : vec) (c : color) (a : artist) :
  segment p q c = Ok a ->
  exists p0 p1 p2 q0 q1 q2,
    nth_error p 0 = Some p0 /\ nth_error p 1 = Some p1 /\ nth_error p 2 = Some p2
    /\ nth_error q 0 = Some q0 /\ nth_error q 1 = Some q1 /\ nth_error q 2 = Some q2
    /\ a = plot [p0; q0] [p1; q1] [p2; q2] c.
Proof.
  unfold segment. intros H.
  bind_inv H. bind_inv H. bind_inv H. bind_inv H. bind_inv H. bind_inv H.
  ok_inv H. rewrite getitem_Ok in *.
  do 6 eexists. repeat split; eassumption.
Qed.

Lemma segment_mark (p q : vec) (c : color) (a : artist) :
  segment p q c = Ok a -> mark_of a = stroke c.
Proof.
  intros H. apply segment_inv in H.
  destruct H as (? & ? & ? & ? & ? & ? & _ & _ & _ & _ & _ & _ & ->). reflexivity.
Qed.

Lemma corners_of_length (o : list (list vec3)) (cs : list vec) :
  corners_of o = Ok cs -> length cs = 4%nat /\ Forall (fun c => length c = 3%nat) cs.
Proof.
  unfold corners_of. intros H.
  bind_inv H. bind_inv H. bind_inv H. bind_inv H. bind_inv H. bind_inv H.
  ok_inv H. split; [reflexivity |].
  repeat constructor;
    match goal with |- length (vec_of ?c) = _ => destruct c as [[? ?] ?]; reflexivity end.
Qed.

Lemma frustum_inv (self : Runner) (fs : FileSystem) (i : nat)
  (surf : artist) (cs : list vec) :
  frustum self fs i = Ok (surf, cs) ->
  let k := image_downsample_factor (config self) in
  exists path img coords' img' xx yy zz,
    nth_error (image_filenames self) i = Some path
    /\ load_image fs path = Ok img
    /\ stride2 k (get_image_coords (cameras self)) = Ok coords'
    /\ stride2 k img = Ok img'
    /\ surf = plot_surface xx yy zz img'
    /\ length cs = 4%nat
    /\ Forall (fun c => length c = 3%nat) cs.
Proof.
  unfold frustum. intros H. cbv zeta.
  bind_inv H. bind_inv H. bind_inv H. bind_inv H. bind_inv H. bind_inv H.
  ok_inv H. apply getitem_Ok in E.
  destruct (corners_of_length _ E4) as [H4 H3].
  do 7 eexists. repeat split; eauto.
Qed.

Lemma for_corners_inv (p : vec) (cs : list vec) (st st' : LoopState) :
  for_corners p cs st = Ok st' ->
  rng st' = rng st /\ skipped st' = skipped st
  /\ expand Qmin (min_pos st) cs = Ok (min_pos st')
  /\ expand Qmax (max_pos st) cs = Ok (max_pos st')
  /\ exists lines, ax st' = ax st ++ lines
       /\ map mark_of lines = repeat (stroke gray) (length cs).
Proof.
  revert st; induction cs as [| c cs IH]; simpl; intros st H.
  - ok_inv H. repeat split; try reflexivity.
    exists []; split; [rewrite app_nil_r |]; reflexivity.
  - bind_inv H. unfold corner_step in E.
    bind_inv E. bind_inv E. bind_inv E. ok_inv E.
    apply IH in H. simpl in H.
    destruct H as (Hr & Hs & Hmin & Hmax & lines & Hax & Hm).
    rewrite E1, E2; simpl. repeat split; try assumption.
    exists (a0 :: lines). split.
    + rewrite Hax, <- app_assoc. reflexivity.
    + simpl. rewrite Hm. f_equal. eapply segment_mark; eassumption.
Qed.

(** Everything a successful [draw_camera] did, as one relation between the
    state before and the state after. *)
Inductive draws (self : Runner) (fs : FileSystem) (i : nat) (camera_pose : mat)
  (st st' : LoopState) : Prop :=
| draws_intro (p x y z : vec) (lx ly lz : artist) (mid : list artist) (p0 p1 p2 : Q)
    (Hp : translation camera_pose = Ok p)
    (Hx : axis_end p (0.8 * image_plane (config self)) (rotation camera_pose) 0 = Ok x)
    (Hy : axis_end p (0.8 * image_plane (config self)) (rotation camera_pose) 1 = Ok y)
    (Hz : axis_end p (0.8 * image_plane (config self)) (rotation camera_pose) 2 = Ok z)
    (Hlx : segment p x red = Ok lx)
    (Hly : segment p y green = Ok ly)
    (Hlz : segment p z blue = Ok lz)
    (Hp0 : nth_error p 0 = Some p0)
    (Hp1 : nth_error p 1 = Some p1)
    (Hp2 : nth_error p 2 = Some p2)
    (Hrng : rng st' = rng st)
    (Hskipped : skipped st' = skipped st)
    (Hax : ax st' = ax st ++ [lx; ly; lz] ++ mid ++ [text p0 p1 p2 (str i) black 10])
    (Hmid : if show_image (config self)
            then exists surf corners lines,
                frustum self fs i = Ok (surf, corners)
                /\ mid = surf :: lines
                /\ map mark_of lines = repeat (stroke gray) 4
                /\ expand Qmin (min_pos st) corners = Ok (min_pos st')
                /\ expand Qmax (max_pos st) corners = Ok (max_pos st')
            else mid = [] /\ min_pos st' = min_pos st /\ max_pos st' = max_pos st).

Lemma draw_camera_inv (self : Runner) (fs : FileSystem) (i : nat)
  (camera_pose : mat) (st st' : LoopState) :
  draw_camera self fs i camera_pose st = Ok st' -> draws self fs i camera_pose st st'.
Proof.
  unfold draw_camera. intros H.
  bind_inv H. rename a into p, E into Hp.
  bind_inv H. rename a into x, E into Hx.
  bind_inv H. rename a into y, E into Hy.
  bind_inv H. rename a into z, E into Hz.
  bind_inv H. rename a into lx, E into Hlx.
  bind_inv H. rename a into ly, E into Hly.
  bind_inv H. rename a into lz, E into Hlz.
  bind_inv H. rename a into st1, E into Hst1.
  bind_inv H. bind_inv H. bind_inv H. ok_inv H.
  rewrite getitem_Ok in *.
  destruct (show_image (config self)) eqn:Hshow.
  - bind_inv Hst1. destruct a2 as [surf corners].
    destruct (frustum_inv _ _ _ E2) as (? & ? & ? & ? & ? & ? & ? & _ & _ & _ & _ & _ & H4 & _).
    apply for_corners_inv in Hst1. simpl in Hst1.
    destruct Hst1 as (Hr & Hs & Hmin & Hmax & lines & Hax & Hm).
    eapply draws_intro with (mid := surf :: lines); simpl; try eassumption.
    + rewrite Hax, <- !app_assoc. reflexivity.
    + rewrite Hshow. exists surf, corners, lines.
      rewrite H4 in Hm. repeat split; assumption.
  - ok_inv Hst1.
    eapply draws_intro with (mid := []); simpl; try eassumption; try reflexivity.
    + rewrite <- app_assoc. reflexivity.
    + rewrite Hshow. repeat split.
Qed.

Lemma draws_marks (self : Runner) (fs : FileSystem) (i : nat) (camera_pose : mat)
  (st st' : LoopState) :
  draws self fs i camera_pose st st' ->
  exists arts, ax st' = ax st ++ arts
    /\ map mark_of arts = camera_marks (config self) i.
Proof.
  intros []. eexists; split; [eassumption |].
  unfold camera_marks. simpl.
  rewrite (segment_mark _ _ _ Hlx), (segment_mark _ _ _ Hly), (segment_mark _ _ _ Hlz).
  do 3 f_equal. rewrite map_app. simpl.
  destruct (show_image (config self)).
  - destruct Hmid as (surf & corners & lines & Hf & -> & Hm & _).
    apply frustum_inv in Hf.
    destruct Hf as (? & ? & ? & ? & ? & ? & ? & _ & _ & _ & _ & -> & _).
    simpl. rewrite Hm. reflexivity.
  - destruct Hmid as (-> & _). reflexivity.
Qed.

(** ** One iteration *)

Lemma loop_body_skip (self : Runner) (fs : FileSystem) (i : nat) (camera_pose : mat)
  (st : LoopState) :
  skip_test (config self) (rng st O) i = true ->
  loop_body self fs i camera_pose st =
    Ok {| rng := fun n => rng st (S n); skipped := skipped st ++ [i];
          min_pos := min_pos st; max_pos := max_pos st; ax := ax st |}.
Proof.
  intros H. unfold loop_body, rand. rewrite H. reflexivity.
Qed.

Lemma loop_body_draw (self : Runner) (fs : FileSystem) (i : nat) (camera_pose : mat)
  (st : LoopState) :
  skip_test (config self) (rng st O) i = false ->
  loop_body self fs i camera_pose st =
    draw_camera self fs i camera_pose
      {| rng := fun n => rng st (S n); skipped := skipped st;
         min_pos := min_pos st; max_pos := max_pos st; ax := ax st |}.
Proof.
  intros H. unfold loop_body, rand. rewrite H. reflexivity.
Qed.

(** The part of an iteration that does not depend on the coordinates. *)
Lemma loop_body_marks (self : Runner) (fs : FileSystem) (i : nat) (camera_pose : mat)
  (st st' : LoopState) :
  loop_body self fs i camera_pose st = Ok st' ->
  (forall n, rng st' n = rng st (S n))
  /\ skipped st' = skipped st ++ (if skip_test (config self) (rng st O) i then [i] else [])
  /\ exists arts, ax st' = ax st ++ arts
       /\ map mark_of arts =
          if skip_test (config self) (rng st O) i then [] else camera_marks (config self) i.
Proof.
  intros H. destruct (skip_test (config self) (rng st O) i) eqn:Hskip.
  - rewrite loop_body_skip in H by assumption. ok_inv H. simpl.
    repeat split. exists []. rewrite app_nil_r. split; reflexivity.
  - rewrite loop_body_draw in H by assumption.
    apply draw_camera_inv in H.
    destruct (draws_marks H) as (arts & Hax & Hm).
    destruct H. simpl in *. rewrite Hrng, Hskipped, app_nil_r.
    repeat split. exists arts. split; assumption.
Qed.

(** ** The loop *)

(** Invariant rule for the [for] loop: [P j] holds before iteration [j]. *)
Lemma loop_invariant (self : Runner) (fs : FileSystem) (P : nat -> LoopState -> Prop)
  (camera_poses : list mat) :
  forall (i : nat) (st st' : LoopState),
    P i st ->
    (forall j camera_pose s s',
        (i <= j)%nat ->
        nth_error camera_poses (j - i) = Some camera_pose ->
        P j s -> loop_body self fs j camera_pose s = Ok s' -> P (S j) s') ->
    loop self fs i camera_poses st = Ok st' ->
    P (i + length camera_poses)%nat st'.
Proof.
  induction camera_poses as [| camera_pose rest IH]; simpl; intros i st st' Hinit Hstep H.
  - ok_inv H. rewrite Nat.add_0_r. assumption.
  - bind_inv H.
    replace (i + S (length rest))%nat with (S i + length rest)%nat by lia.
    apply (IH (S i) a st'); [| | assumption].
    + apply (Hstep i camera_pose st a); auto.
      rewrite Nat.sub_diag. reflexivity.
    + intros j cp s s' Hj Hnth. apply Hstep; [lia |].
      replace (j - i)%nat with (S (j - S i)) by lia. exact Hnth.
Qed.

(** The skip decision for camera [i] in a run started with generator [g]. *)
Definition skips (self : Runner) (g : RandomState) (i : nat) : bool :=
  skip_test (config self) (g i) i.

Definition kept (self : Runner) (g : RandomState) (i : nat) : bool :=
  negb (skips self g i).

Lemma seq_S_filter (f : nat -> bool) (j : nat) :
  filter f (seq 0 (S j)) = filter f (seq 0 j) ++ (if f j then [j] else []).
Proof.
  rewrite seq_S, filter_app. simpl. destruct (f j); reflexivity.
Qed.

(** The samples consumed, the skipped list and the kinds of artists after
    the first [j] iterations. *)
Definition progress (self : Runner) (g : RandomState) (a0 : list artist)
  (j : nat) (s : LoopState) : Prop :=
  (forall n, rng s n = g (j + n)%nat)
  /\ skipped s = filter (skips self g) (seq 0 j)
  /\ exists arts, ax s = a0 ++ arts
       /\ map mark_of arts
          = flat_map (camera_marks (config self)) (filter (kept self g) (seq 0 j)).

Lemma progress_step (self : Runner) (fs : FileSystem) (g : RandomState)
  (a0 : list artist) (j : nat) (camera_pose : mat) (s s' : LoopState) :
  progress self g a0 j s ->
  loop_body self fs j camera_pose s = Ok s' ->
  progress self g a0 (S j) s'.
Proof.
  intros (Hr & Hs & arts & Hax & Hm) H.
  apply loop_body_marks in H. destruct H as (Hr' & Hs' & arts' & Hax' & Hm').
  assert (H0 : rng s O = g j) by (rewrite Hr; f_equal; lia).
  rewrite H0 in Hs', Hm'. fold (skips self g j) in Hs', Hm'.
  split; [| split].
  - intros n. rewrite Hr', Hr. f_equal; lia.
  - rewrite Hs', Hs, seq_S_filter. reflexivity.
  - exists (arts ++ arts'). split.
    + rewrite Hax', Hax, app_assoc. reflexivity.
    + rewrite map_app, Hm, Hm', seq_S_filter, flat_map_app.
      unfold kept at 3. destruct (skips self g j); simpl; rewrite ?app_nil_r; reflexivity.
Qed.

Lemma loop_progress (self : Runner) (fs : FileSystem) (g : RandomState)
  (lo hi : vec) (camera_poses : list mat) (st : LoopState) :
  loop self fs 0 camera_poses (initial_state g lo hi) = Ok st ->
  progress self g [] (length camera_poses) st.
Proof.
  intros H.
  apply (@loop_invariant self fs (progress self g []) camera_poses
           0%nat (initial_state g lo hi) st); [| | assumption].
  - split; [| split]; simpl; try reflexivity.
    exists []; split; reflexivity.
  - intros j cp s s' _ _ Hp Hb. eapply progress_step; eassumption.
Qed.

(** ** Inverting a completed call *)

Lemma vis_inv (self : Runner) (fs : FileSystem) (g : RandomState) (out : Shown) :
  vis self fs g = Ok out ->
  exists positions lo hi st M m,
    mapM translation (camera_to_worlds (cameras self)) = Ok positions
    /\ reduce_dim0 Qmin positions = Ok lo
    /\ reduce_dim0 Qmax positions = Ok hi
    /\ loop self fs 0 (camera_to_worlds (cameras self)) (initial_state g lo hi) = Ok st
    /\ reduce_all Qmax (max_pos st) = Ok M
    /\ reduce_all Qmin (min_pos st) = Ok m
    /\ out = {| figure := ax st ++ world_axes (m * 0.9) (M * 1.1);
                console := [("skipped " ++ str (length (skipped st)) ++ " images.")%string];
                skipped_frames := skipped st |}.
Proof.
  unfold vis. intros H.
  bind_inv H. bind_inv H. bind_inv H. bind_inv H. bind_inv H. bind_inv H.
  ok_inv H. do 6 eexists. repeat split; eassumption.
Qed.

(** ** The skip test *)

Lemma Qltb_lt (x y : Q) : Qltb x y = true <-> x < y.
Proof.
  unfold Qltb. rewrite negb_true_iff, <- not_true_iff_false, Qle_bool_iff.
  split; [apply Qnot_le_lt | apply Qlt_not_le].
Qed.

Lemma not_in_spec (i : nat) (frames : list Z) :
  not_in i (Some frames) = true <-> ~ In (Z.of_nat i) frames.
Proof.
  simpl. rewrite negb_true_iff, <- not_true_iff_false, existsb_exists.
  split; intros H.
  - intros Hin. apply H. exists (Z.of_nat i). split; [assumption | apply Z.eqb_refl].
  - intros [z [Hin Hz]]. apply Z.eqb_eq in Hz. subst z. auto.
Qed.

Lemma skip_test_spec (cfg : VisConfig) (sample : Q) (i : nat) :
  skip_test cfg sample i = true <->
  sample < skip_probability cfg
  \/ ((exists frames, selected_frames cfg = Some frames /\ ~ In (Z.of_nat i) frames)
      /\ show_image cfg = true).
Proof.
  unfold skip_test. rewrite orb_true_iff, !andb_true_iff, Qltb_lt.
  destruct (selected_frames cfg) as [frames |] eqn:Hsel.
  - rewrite not_in_spec. simpl. split.
    + intros [H | [[_ H] Hs]]; [left; assumption | right].
      split; [exists frames; auto | assumption].
    + intros [H | [[fr [Hfr H]] Hs]]; [left; assumption | right].
      inversion Hfr; subst. auto.
  - simpl. split.
    + intros [H | [[H _] _]]; [left; assumption | discriminate].
    + intros [H | [[fr [Hfr _]] _]]; [left; assumption | discriminate].
Qed.

(** ** A completed call, seen through skipped indices and artist kinds *)

Definition world_marks : list mark :=
  [stroke red; stroke green; stroke blue;
   axis_label; axis_label; axis_label;
   axis_limit; axis_limit; axis_limit].

Definition count_line (n : nat) : string :=
  ("skipped " ++ str n ++ " images.")%string.

Lemma vis_summary (self : Runner) (fs : FileSystem) (g : RandomState) (out : Shown) :
  vis self fs g = Ok out ->
  let n := length (camera_to_worlds (cameras self)) in
  skipped_frames out = filter (skips self g) (seq 0 n)
  /\ console out = [count_line (length (skipped_frames out))]
  /\ map mark_of (figure out)
     = flat_map (camera_marks (config self)) (filter (kept self g) (seq 0 n))
       ++ world_marks.
Proof.
  intros H n. apply vis_inv in H.
  destruct H as (positions & lo & hi & st & M & m & _ & _ & _ & Hloop & _ & _ & ->).
  apply loop_progress in Hloop. destruct Hloop as (_ & Hs & arts & Hax & Hm).
  simpl. repeat split; try assumption.
  rewrite Hax, map_app. simpl. rewrite Hm. reflexivity.
Qed.

(** ** Poses of the documented shape *)

(** At least three rows of at least four entries: a 3x4 or 4x4 transform. *)
Definition pose_ok (p : mat) : Prop :=
  (3 <= length p)%nat /\ Forall (fun row => (4 <= length row)%nat) p.

Lemma pose_ok_rows (p : mat) :
  pose_ok p ->
  exists r0 r1 r2 rest, p = r0 :: r1 :: r2 :: rest
    /\ (4 <= length r0)%nat /\ (4 <= length r1)%nat /\ (4 <= length r2)%nat.
Proof.
  intros [Hlen Hrows].
  destruct p as [| r0 [| r1 [| r2 rest]]]; simpl in Hlen; try lia.
  inversion Hrows as [| ? ? H0 Hrows1]; subst.
  inversion Hrows1 as [| ? ? H1 Hrows2]; subst.
  inversion Hrows2 as [| ? ? H2 _]; subst.
  exists r0, r1, r2, rest. auto.
Qed.

Lemma row4 (r : vec) :
  (4 <= length r)%nat -> exists a b c d rest, r = a :: b :: c :: d :: rest.
Proof.
  destruct r as [| a [| b [| c [| d rest]]]]; simpl; try lia.
  intros _. exists a, b, c, d, rest. reflexivity.
Qed.

(** The entries of a well-shaped pose that [vis] reads. *)
Lemma pose_ok_entries (p : mat) :
  pose_ok p ->
  exists r00 r01 r02 t0 e0 r10 r11 r12 t1 e1 r20 r21 r22 t2 e2 rest,
    p = (r00 :: r01 :: r02 :: t0 :: e0)
          :: (r10 :: r11 :: r12 :: t1 :: e1)
          :: (r20 :: r21 :: r22 :: t2 :: e2) :: rest.
Proof.
  intros H. destruct (pose_ok_rows H) as (r0 & r1 & r2 & rest & -> & H0 & H1 & H2).
  destruct (row4 _ H0) as (? & ? & ? & ? & ? & ->).
  destruct (row4 _ H1) as (? & ? & ? & ? & ? & ->).
  destruct (row4 _ H2) as (? & ? & ? & ? & ? & ->).
  do 16 eexists. reflexivity.
Qed.

Lemma translation_ok (p : mat) :
  pose_ok p -> exists t0 t1 t2, translation p = Ok [t0; t1; t2].
Proof.
  intros H. destruct (pose_ok_entries H)
    as (? & ? & ? & t0 & ? & ? & ? & ? & t1 & ? & ? & ? & ? & t2 & ? & ? & ->).
  exists t0, t1, t2. reflexivity.
Qed.



Lemma positions_ok (camera_poses : list mat) :
  Forall pose_ok camera_poses ->
  exists positions, mapM translation camera_poses = Ok positions
    /\ Forall (fun t => length t = 3%nat) positions.
Proof.
  induction 1 as [| p rest Hp _ (ps & Hps & Hlen)]; simpl.
  - exists []. split; [reflexivity | constructor].
  - destruct (translation_ok Hp) as (t0 & t1 & t2 & ->). rewrite Hps. simpl.
    eexists. split; [reflexivity |]. constructor; [reflexivity | assumption].
Qed.

Lemma reduce_dim0_length (f : Q -> Q -> Q) (rows : list vec) (n : nat) :
  rows <> [] -> Forall (fun t => length t = n) rows ->
  exists b, reduce_dim0 f rows = Ok b /\ length b = n.
Proof.
  destruct rows as [| r rs]; [congruence |]. intros _ H.
  apply Forall_cons_iff in H. destruct H as [Hr Hrs]. simpl.
  eexists. split; [reflexivity |].
  revert r Hr. induction Hrs as [| x l Hx _ IH]; intros r Hr; simpl.
  - assumption.
  - apply IH. unfold zip_with. rewrite length_map, length_combine, Hr, Hx.
    apply Nat.min_id.
Qed.



(** ** List facts used below *)


Lemma filter_none (A : Type) (f : A -> bool) (l : list A) :
  (forall x, In x l -> f x = false) -> filter f l = [].
Proof.
  induction l as [| x t IH]; simpl; intros H; [reflexivity |].
  rewrite (H x) by auto. auto.
Qed.

Lemma mem_filter_seq (f : nat -> bool) (n i : nat) :
  (i < n)%nat -> existsb (Nat.eqb i) (filter f (seq 0 n)) = f i.
Proof.
  intros Hi. destruct (f i) eqn:Hf.
  - apply existsb_exists. exists i. split; [| apply Nat.eqb_refl].
    apply filter_In. split; [apply in_seq; lia | assumption].
  - apply not_true_iff_false. intros H. apply existsb_exists in H.
    destruct H as [j [Hin Hj]]. apply Nat.eqb_eq in Hj. subst j.
    apply filter_In in Hin. destruct Hin as [_ Hin]. congruence.
Qed.

(** * The claims *)

(** ** C1 *)

(** C1: in a completed call, camera [i] is in the skipped list exactly when
    its sample is strictly below [skip_probability], or [selected_frames] is
    set, does not contain [i], and [show_image] is true; [show_image] guards
    the selection disjunct only.  The skipped cameras add no artist: the
    figure holds, in index order, the triad, frustum and label of the
    cameras that are not in the skipped list, followed by the world axes. *)
Theorem C1_skip_condition (self : Runner) (fs : FileSystem) (g : RandomState)
  (out : Shown) :
  vis self fs g = Ok out ->
  (forall i, (i < length (camera_to_worlds (cameras self)))%nat ->
     (In i (skipped_frames out) <->
      g i < skip_probability (config self)
      \/ ((exists frames, selected_frames (config self) = Some frames
                          /\ ~ In (Z.of_nat i) frames)
          /\ show_image (config self) = true)))
  /\ (forall i, In i (skipped_frames out) ->
                (i < length (camera_to_worlds (cameras self)))%nat)
  /\ map mark_of (figure out)
     = flat_map (camera_marks (config self))
         (filter (fun i => negb (existsb (Nat.eqb i) (skipped_frames out)))
            (seq 0 (length (camera_to_worlds (cameras self)))))
       ++ world_marks.
Proof.
  intros H. destruct (vis_summary _ _ _ H) as (Hs & _ & Hm).
  split; [| split].
  - intros i Hi. rewrite Hs, filter_In, in_seq, <- skip_test_spec.
    unfold skips. split; [tauto |]. intros Ht. split; [lia | assumption].
  - intros i Hin. rewrite Hs in Hin. apply filter_In in Hin.
    destruct Hin as [Hin _]. apply in_seq in Hin. lia.
  - rewrite Hm. do 2 f_equal. apply filter_ext_in.
    intros i Hin. apply in_seq in Hin. rewrite Hs.
    rewrite mem_filter_seq by lia. reflexivity.
Qed.

Module C1_data.
Import Sample.

(** Even draws fall below 0.5, odd draws do not. *)
Definition gen : RandomState := fun n => if Nat.even n then 0.25 else 0.75.

Definition self : Runner := runner (cfg 2 0.5 1 (Some [2; 5]%Z) true) line8.

Definition shown : Shown :=
  Eval vm_compute in
    match vis self (disk 8) gen with
    | Ok out => out
    | Raise _ => {| figure := []; console := []; skipped_frames := [] |}
    end.
End C1_data.

Lemma C1_skip_condition_witness :
  vis C1_data.self (Sample.disk 8) C1_data.gen = Ok C1_data.shown
  /\ skipped_frames C1_data.shown = [0; 1; 2; 3; 4; 6; 7]%nat
  /\ (In 2%nat (skipped_frames C1_data.shown) <->
      C1_data.gen 2%nat < skip_probability (config C1_data.self)
      \/ ((exists frames, selected_frames (config C1_data.self) = Some frames
                          /\ ~ In (Z.of_nat 2) frames)
          /\ show_image (config C1_data.self) = true)).
Proof.
  split; [vm_compute; reflexivity |].
  split; [vm_compute; reflexivity |].
  apply (C1_skip_condition C1_data.self (Sample.disk 8) C1_data.gen).
  - vm_compute; reflexivity.
  - simpl; lia.
Defined.


(** ** C2 *)




Module C2_data.
Import Sample.

(** Frames 0 and 2 are not selected, images are not shown. *)
Definition self : Runner := runner (cfg 5 0 1 (Some [1]%Z) false) line3.

End C2_data.


(** ** C3 *)


Module C3_data.
Import Sample.

Definition self : Runner := runner (cfg 5 1 1 None true) line8.

End C3_data.


(** ** C4 *)

Definition is_2_or_5 (i : nat) : bool := (i =? 2)%nat || (i =? 5)%nat.

(** Triad, surface, four frustum edges, label. *)
Definition rendered_with_frustum (i : nat) : list mark :=
  [stroke red; stroke green; stroke blue;
   surface; stroke gray; stroke gray; stroke gray; stroke gray;
   label (str i)].

Lemma only_2_and_5 (n : nat) :
  (6 <= n)%nat -> filter is_2_or_5 (seq 0 n) = [2; 5]%nat.
Proof.
  intros Hn. replace n with (6 + (n - 6))%nat by lia.
  rewrite seq_app, filter_app. simpl seq at 1.
  rewrite (@filter_none _ is_2_or_5 (seq _ _)); [reflexivity |].
  intros i Hi. apply in_seq in Hi. unfold is_2_or_5.
  apply orb_false_iff. split; apply Nat.eqb_neq; lia.
Qed.

(** C4: with [selected_frames] holding exactly 2 and 5, [show_image] true
    and [skip_probability] 0.0, the skip test of camera [i] is false
    exactly for [i = 2] and [i = 5], whatever samples in [[0, 1)] are
    drawn; a completed call skipped all other indices and its figure
    holds the triad, frustum and label of cameras 2 and 5 only. *)
Theorem C4_only_selected_rendered (self : Runner) (fs : FileSystem)
  (g : RandomState) (frames : list Z) (out : Shown) :
  selected_frames (config self) = Some frames ->
  (forall z, In z frames <-> z = 2%Z \/ z = 5%Z) ->
  show_image (config self) = true ->
  skip_probability (config self) == 0 ->
  (forall n, 0 <= g n) ->
  vis self fs g = Ok out ->
  (forall i, skip_test (config self) (g i) i = negb (is_2_or_5 i))
  /\ skipped_frames out
     = filter (fun i => negb (is_2_or_5 i))
         (seq 0 (length (camera_to_worlds (cameras self))))
  /\ map mark_of (figure out)
     = flat_map rendered_with_frustum
         (filter is_2_or_5 (seq 0 (length (camera_to_worlds (cameras self)))))
       ++ world_marks
  /\ ((6 <= length (camera_to_worlds (cameras self)))%nat ->
      map mark_of (figure out)
      = rendered_with_frustum 2 ++ rendered_with_frustum 5 ++ world_marks).
Proof.
  intros Hsel Hfr Hshow Hp Hg H.
  assert (Hdec : forall i, skip_test (config self) (g i) i = negb (is_2_or_5 i)).
  { intros i. destruct (is_2_or_5 i) eqn:Hi; simpl.
    - apply not_true_iff_false. rewrite skip_test_spec.
      intros [Hlt | [[fr [Hfr' Hnot]] _]].
      + rewrite Hp in Hlt. specialize (Hg i). lra.
      + rewrite Hsel in Hfr'. inversion Hfr'; subst fr. apply Hnot.
        apply Hfr. unfold is_2_or_5 in Hi. apply orb_true_iff in Hi.
        destruct Hi as [Hi | Hi]; apply Nat.eqb_eq in Hi; subst i; auto.
    - apply skip_test_spec. right. split; [| assumption].
      exists frames. split; [assumption |]. intros Hin. apply Hfr in Hin.
      unfold is_2_or_5 in Hi. apply orb_false_iff in Hi. destruct Hi as [H2 H5].
      apply Nat.eqb_neq in H2, H5. lia. }
  destruct (vis_summary _ _ _ H) as (Hs & _ & Hm).
  assert (Hmarks :
    map mark_of (figure out)
    = flat_map rendered_with_frustum
        (filter is_2_or_5 (seq 0 (length (camera_to_worlds (cameras self)))))
      ++ world_marks).
  { rewrite Hm. f_equal.
    rewrite (@filter_ext _ (kept self g) is_2_or_5).
    - apply flat_map_ext. intros i. unfold camera_marks. rewrite Hshow. reflexivity.
    - intros i. unfold kept, skips. rewrite Hdec. apply negb_involutive. }
  split; [assumption | split; [| split; [assumption |]]].
  - rewrite Hs. apply filter_ext. intros i. unfold skips. apply Hdec.
  - intros H6. rewrite Hmarks, only_2_and_5 by assumption. reflexivity.
Qed.

Module C4_data.
Import Sample.

Definition self : Runner := runner (cfg 2 0 1 (Some [2; 5]%Z) true) line8.

Definition shown : Shown :=
  Eval vm_compute in
    match vis self (disk 8) (constant 0.5) with
    | Ok out => out
    | Raise _ => {| figure := []; console := []; skipped_frames := [] |}
    end.

End C4_data.

Lemma C4_only_selected_rendered_witness :
  vis C4_data.self (Sample.disk 8) (Sample.constant 0.5) = Ok C4_data.shown
  /\ skipped_frames C4_data.shown = [0; 1; 3; 4; 6; 7]%nat
  /\ map mark_of (figure C4_data.shown)
     = rendered_with_frustum 2 ++ rendered_with_frustum 5 ++ world_marks.
Proof.
  split; [vm_compute; reflexivity |].
  destruct (@C4_only_selected_rendered C4_data.self (Sample.disk 8)
              (Sample.constant 0.5) [2; 5]%Z C4_data.shown)
    as (_ & Hs & _ & Hm).
  - reflexivity.
  - intros z. simpl. intuition congruence.
  - reflexivity.
  - reflexivity.
  - intros n. unfold Sample.constant. lra.
  - vm_compute; reflexivity.
  - split; [exact Hs | apply Hm; simpl; lia].
Defined.

(** ** C5 *)

Lemma loop_extends (self : Runner) (fs : FileSystem) (camera_poses : list mat) :
  forall (i : nat) (st st' : LoopState),
    loop self fs i camera_poses st = Ok st' ->
    exists after, ax st' = ax st ++ after.
Proof.
  induction camera_poses as [| p rest IH]; simpl; intros i st st' H.
  - ok_inv H. exists []. rewrite app_nil_r. reflexivity.
  - bind_inv H. apply IH in H. destruct H as [after2 H2].
    apply loop_body_marks in E. destruct E as (_ & _ & arts & Hax & _).
    exists (arts ++ after2). rewrite H2, Hax, app_assoc. reflexivity.
Qed.

(** A camera that passes the skip test is drawn by [draw_camera], and what
    it drew stays in the axes object until the end of the loop. *)
Lemma loop_draws (self : Runner) (fs : FileSystem) (camera_poses : list mat) :
  forall (i j : nat) (st st' : LoopState) (camera_pose : mat),
    loop self fs i camera_poses st = Ok st' ->
    nth_error camera_poses j = Some camera_pose ->
    skip_test (config self) (rng st j) (i + j) = false ->
    exists s s' after,
      draws self fs (i + j) camera_pose s s' /\ ax st' = ax s' ++ after.
Proof.
  induction camera_poses as [| p rest IH]; intros i j st st' cp H Hnth Hskip.
  - destruct j; discriminate.
  - simpl in H. bind_inv H. destruct j as [| j'].
    + simpl in Hnth. ok_inv Hnth. rewrite Nat.add_0_r in *.
      rewrite loop_body_draw in E by assumption.
      apply draw_camera_inv in E.
      destruct (loop_extends _ _ _ _ _ H) as [after Hafter].
      eauto.
    + simpl in Hnth.
      destruct (loop_body_marks _ _ _ _ _ E) as (Hr & _).
      replace (i + S j')%nat with (S i + j')%nat in * by lia.
      apply (IH (S i) j' a st' cp H Hnth).
      rewrite Hr. assumption.
Qed.

(** The three segments [draw_camera] computes for a pose given by its
    entries. *)
Lemma draws_triad (self : Runner) (fs : FileSystem) (i : nat) (s s' : LoopState)
  (r00 r01 r02 t0 r10 r11 r12 t1 r20 r21 r22 t2 : Q) (rest : mat) :
  draws self fs i
    ([r00; r01; r02; t0] :: [r10; r11; r12; t1] :: [r20; r21; r22; t2] :: rest) s s' ->
  exists mid after,
    ax s' = ax s
      ++ [ plot [t0; t0 + 0.8 * image_plane (config self) * r00]
                [t1; t1 + 0.8 * image_plane (config self) * r10]
                [t2; t2 + 0.8 * image_plane (config self) * r20] red;
           plot [t0; t0 + 0.8 * image_plane (config self) * r01]
                [t1; t1 + 0.8 * image_plane (config self) * r11]
                [t2; t2 + 0.8 * image_plane (config self) * r21] green;
           plot [t0; t0 + 0.8 * image_plane (config self) * r02]
                [t1; t1 + 0.8 * image_plane (config self) * r12]
                [t2; t2 + 0.8 * image_plane (config self) * r22] blue ]
      ++ mid ++ after.
Proof.
  intros [].
  cbv [translation column firstn mapM getitem nth_error bind] in Hp. ok_inv Hp.
  cbv [axis_end rotation column firstn map mapM getitem nth_error bind
       broadcast2 zip_with length Nat.eqb combine fst snd] in Hx, Hy, Hz.
  ok_inv Hx. ok_inv Hy. ok_inv Hz.
  cbv [segment getitem nth_error bind] in Hlx, Hly, Hlz.
  ok_inv Hlx. ok_inv Hly. ok_inv Hlz.
  exists mid. eexists. exact Hax.
Qed.

Definition veq (a b : vec) : Prop := Forall2 Qeq a b.

(** C5: a camera that is not skipped, at position [(t0, t1, t2)] with
    rotation entries [rjk], gets three consecutive segments from its
    position to position + 0.8 * image_plane * (rotation column 0, 1, 2),
    in red, green and blue; for the identity rotation and [image_plane]
    1.0 these endpoints are the position plus [(0.8, 0, 0)], [(0, 0.8, 0)]
    and [(0, 0, 0.8)]. *)
Theorem C5_axis_endpoints (self : Runner) (fs : FileSystem) (g : RandomState)
  (out : Shown) (i : nat)
  (r00 r01 r02 t0 r10 r11 r12 t1 r20 r21 r22 t2 : Q) (rest : mat) :
  vis self fs g = Ok out ->
  nth_error (camera_to_worlds (cameras self)) i
  = Some ([r00; r01; r02; t0] :: [r10; r11; r12; t1] :: [r20; r21; r22; t2] :: rest) ->
  skip_test (config self) (g i) i = false ->
  exists x y z : vec,
    x = [t0 + 0.8 * image_plane (config self) * r00;
         t1 + 0.8 * image_plane (config self) * r10;
         t2 + 0.8 * image_plane (config self) * r20]
    /\ y = [t0 + 0.8 * image_plane (config self) * r01;
            t1 + 0.8 * image_plane (config self) * r11;
            t2 + 0.8 * image_plane (config self) * r21]
    /\ z = [t0 + 0.8 * image_plane (config self) * r02;
            t1 + 0.8 * image_plane (config self) * r12;
            t2 + 0.8 * image_plane (config self) * r22]
    /\ (exists before after,
          figure out = before
            ++ [ plot [t0; nth 0 x 0] [t1; nth 1 x 0] [t2; nth 2 x 0] red;
                 plot [t0; nth 0 y 0] [t1; nth 1 y 0] [t2; nth 2 y 0] green;
                 plot [t0; nth 0 z 0] [t1; nth 1 z 0] [t2; nth 2 z 0] blue ]
            ++ after)
    /\ (image_plane (config self) == 1 ->
        [[r00; r01; r02]; [r10; r11; r12]; [r20; r21; r22]]
        = [[1; 0; 0]; [0; 1; 0]; [0; 0; 1]] ->
        veq x [t0 + 0.8; t1 + 0; t2 + 0]
        /\ veq y [t0 + 0; t1 + 0.8; t2 + 0]
        /\ veq z [t0 + 0; t1 + 0; t2 + 0.8]).
Proof.
  intros H Hnth Hskip.
  apply vis_inv in H.
  destruct H as (positions & lo & hi & st & M & m & _ & _ & _ & Hloop & _ & _ & ->).
  destruct (loop_draws _ _ _ 0 i _ Hloop Hnth Hskip) as (s & s' & after & Hd & Hax).
  apply draws_triad in Hd. destruct Hd as (mid & after' & Hs').
  do 3 eexists. split; [reflexivity |]. split; [reflexivity |]. split; [reflexivity |].
  split.
  - exists (ax s). eexists. simpl figure. rewrite Hax, Hs'.
    rewrite <- !app_assoc. reflexivity.
  - intros Hplane HR. inversion HR; subst.
    unfold veq. repeat constructor; rewrite Hplane; ring.
Qed.

Module Plain_run.
Import Sample.

Definition self : Runner := runner (cfg 5 0 1 None false) line3.

Definition shown : Shown :=
  Eval vm_compute in
    match vis self empty_disk (constant 0.5) with
    | Ok out => out
    | Raise _ => {| figure := []; console := []; skipped_frames := [] |}
    end.

End Plain_run.

Lemma C5_axis_endpoints_witness :
  vis Plain_run.self Sample.empty_disk (Sample.constant 0.5) = Ok Plain_run.shown
  /\ exists x y z : vec,
      (exists before after,
          figure Plain_run.shown = before
            ++ [ plot [1; nth 0 x 0] [0; nth 1 x 0] [0; nth 2 x 0] red;
                 plot [1; nth 0 y 0] [0; nth 1 y 0] [0; nth 2 y 0] green;
                 plot [1; nth 0 z 0] [0; nth 1 z 0] [0; nth 2 z 0] blue ]
            ++ after)
      /\ veq x [1 + 0.8; 0 + 0; 0 + 0]
      /\ veq y [1 + 0; 0 + 0.8; 0 + 0]
      /\ veq z [1 + 0; 0 + 0; 0 + 0.8].
Proof.
  split; [vm_compute; reflexivity |].
  destruct (@C5_axis_endpoints Plain_run.self Sample.empty_disk (Sample.constant 0.5)
              Plain_run.shown 1%nat 1 0 0 1 0 1 0 0 0 0 1 0 [])
    as (x & y & z & _ & _ & _ & Hfig & Hid).
  - vm_compute; reflexivity.
  - reflexivity.
  - reflexivity.
  - exists x, y, z. split; [exact Hfig |]. apply Hid; reflexivity.
Defined.

(** ** C6 *)


Lemma Qmin_cases (x y : Q) : Qmin x y = x \/ Qmin x y = y.
Proof.
  unfold Qmin, GenericMinMax.gmin. destruct (x ?= y); auto.
Qed.

Lemma Qmax_cases (x y : Q) : Qmax x y = x \/ Qmax x y = y.
Proof.
  unfold Qmax, GenericMinMax.gmax. destruct (x ?= y); auto.
Qed.

Lemma fold_min_spec (xs : list Q) :
  forall x, In (fold_left Qmin xs x) (x :: xs)
            /\ Forall (fun y => fold_left Qmin xs x <= y) (x :: xs).
Proof.
  induction xs as [| a xs IH]; intros x; simpl.
  - split; [auto | repeat constructor; apply Qle_refl].
  - destruct (IH (Qmin x a)) as [Hin Hall]. split.
    + destruct Hin as [Hin | Hin]; [| auto].
      rewrite <- Hin. destruct (Qmin_cases x a) as [-> | ->]; auto.
    + inversion Hall as [| ? ? Hhd Htl]; subst.
      constructor; [| constructor; [| assumption]].
      * eapply Qle_trans; [exact Hhd | apply Q.le_min_l].
      * eapply Qle_trans; [exact Hhd | apply Q.le_min_r].
Qed.

Lemma fold_max_spec (xs : list Q) :
  forall x, In (fold_left Qmax xs x) (x :: xs)
            /\ Forall (fun y => y <= fold_left Qmax xs x) (x :: xs).
Proof.
  induction xs as [| a xs IH]; intros x; simpl.
  - split; [auto | repeat constructor; apply Qle_refl].
  - destruct (IH (Qmax x a)) as [Hin Hall]. split.
    + destruct Hin as [Hin | Hin]; [| auto].
      rewrite <- Hin. destruct (Qmax_cases x a) as [-> | ->]; auto.
    + inversion Hall as [| ? ? Hhd Htl]; subst.
      constructor; [| constructor; [| assumption]].
      * eapply Qle_trans; [apply Q.le_max_l | exact Hhd].
      * eapply Qle_trans; [apply Q.le_max_r | exact Hhd].
Qed.

Lemma reduce_all_min (t : vec) (m : Q) :
  reduce_all Qmin t = Ok m -> In m t /\ Forall (fun y => m <= y) t.
Proof.
  destruct t as [| x xs]; simpl; intros H; [discriminate |].
  ok_inv H. apply fold_min_spec.
Qed.

Lemma reduce_all_max (t : vec) (M : Q) :
  reduce_all Qmax t = Ok M -> In M t /\ Forall (fun y => y <= M) t.
Proof.
  destruct t as [| x xs]; simpl; intros H; [discriminate |].
  ok_inv H. apply fold_max_spec.
Qed.



(** ** C7 *)



(** ** C8 *)

Lemma loop_Raise_vis (self : Runner) (fs : FileSystem) (g : RandomState)
  (positions : list vec) (lo hi : vec) (e : error) :
  mapM translation (camera_to_worlds (cameras self)) = Ok positions ->
  reduce_dim0 Qmin positions = Ok lo ->
  reduce_dim0 Qmax positions = Ok hi ->
  loop self fs 0 (camera_to_worlds (cameras self)) (initial_state g lo hi) = Raise e ->
  vis self fs g = Raise e.
Proof.
  intros H1 H2 H3 H4. unfold vis. rewrite H1; simpl. rewrite H2; simpl.
  rewrite H3; simpl. rewrite H4. reflexivity.
Qed.

(** If iteration [i + j] raises from whatever state it is entered in with
    the sample that the generator holds for it, so does the loop. *)
Lemma loop_Raise_at (self : Runner) (fs : FileSystem) (camera_poses : list mat) :
  forall (i j : nat) (st : LoopState) (camera_pose : mat),
    nth_error camera_poses j = Some camera_pose ->
    (forall s, rng s O = rng st j ->
               exists e, loop_body self fs (i + j) camera_pose s = Raise e) ->
    exists e, loop self fs i camera_poses st = Raise e.
Proof.
  induction camera_poses as [| p rest IH]; intros i j st cp Hnth Hraise.
  - destruct j; discriminate.
  - simpl. destruct j as [| j'].
    + simpl in Hnth. ok_inv Hnth. rewrite Nat.add_0_r in Hraise.
      destruct (Hraise st eq_refl) as [e ->]. exists e. reflexivity.
    + simpl in Hnth. destruct (loop_body self fs i p st) as [a |] eqn:E;
        [| eexists; reflexivity].
      simpl. destruct (loop_body_marks _ _ _ _ _ E) as (Hr & _).
      apply (IH (S i) j' a cp Hnth).
      intros s Hs. replace (S i + j')%nat with (i + S j')%nat by lia.
      apply Hraise. rewrite Hs, Hr. reflexivity.
Qed.

Lemma vis_Raise_at (self : Runner) (fs : FileSystem) (g : RandomState)
  (i : nat) (camera_pose : mat) :
  nth_error (camera_to_worlds (cameras self)) i = Some camera_pose ->
  (forall s, rng s O = g i ->
             exists e, loop_body self fs i camera_pose s = Raise e) ->
  exists e, vis self fs g = Raise e.
Proof.
  intros Hnth Hraise. unfold vis.
  destruct (mapM translation (camera_to_worlds (cameras self))) as [positions |];
    [| eexists; reflexivity].
  simpl. destruct (reduce_dim0 Qmin positions) as [lo |]; [| eexists; reflexivity].
  simpl. destruct (reduce_dim0 Qmax positions) as [hi |]; [| eexists; reflexivity].
  simpl.
  destruct (@loop_Raise_at self fs _ 0%nat i (initial_state g lo hi) camera_pose Hnth)
    as [e ->]; [exact Hraise |].
  exists e. reflexivity.
Qed.

Lemma draw_camera_missing_file (self : Runner) (fs : FileSystem) (i : nat)
  (camera_pose : mat) (path : string) (s : LoopState) :
  show_image (config self) = true ->
  nth_error (image_filenames self) i = Some path ->
  fs path = None ->
  exists e, draw_camera self fs i camera_pose s = Raise e.
Proof.
  intros Hshow Hpath Hmiss.
  destruct (draw_camera self fs i camera_pose s) as [s' |] eqn:E;
    [| eexists; reflexivity].
  apply draw_camera_inv in E. destruct E. rewrite Hshow in Hmid.
  destruct Hmid as (surf & corners & lines & Hf & _).
  apply frustum_inv in Hf.
  destruct Hf as (path' & img & ? & ? & ? & ? & ? & Hp' & Hload & _).
  rewrite Hpath in Hp'. ok_inv Hp'.
  unfold load_image, Image_open in Hload. rewrite Hmiss in Hload. discriminate.
Qed.

Lemma draw_camera_short_pose (self : Runner) (fs : FileSystem) (i : nat)
  (camera_pose : mat) (s : LoopState) :
  (length camera_pose < 3)%nat ->
  exists e, draw_camera self fs i camera_pose s = Raise e.
Proof.
  intros Hshort.
  destruct (draw_camera self fs i camera_pose s) as [s' |] eqn:E;
    [| eexists; reflexivity].
  apply draw_camera_inv in E. destruct E.
  unfold translation, column in Hp. apply mapM_length in Hp.
  rewrite length_firstn in Hp.
  assert (Hlt : (2 < length p)%nat)
    by (apply nth_error_Some; rewrite Hp2; discriminate).
  lia.
Qed.

Lemma translation_short_row (camera_pose : mat) (row : vec) :
  In row (firstn 3 camera_pose) -> (length row < 4)%nat ->
  exists e, translation camera_pose = Raise e.
Proof.
  intros Hin Hlen. unfold translation, column.
  apply (@mapM_Raise _ _ _ _ row IndexError); [assumption |].
  apply getitem_Raise. lia.
Qed.

Lemma frustum_fs_ext (self : Runner) (fs fs' : FileSystem) (i : nat) :
  (forall path, nth_error (image_filenames self) i = Some path -> fs path = fs' path) ->
  frustum self fs i = frustum self fs' i.
Proof.
  intros H. unfold frustum, getitem.
  destruct (nth_error (image_filenames self) i) as [path |]; [| reflexivity].
  simpl. unfold load_image, Image_open. rewrite (H path eq_refl). reflexivity.
Qed.

(** Peel one [bind] whose first computation is the same on both sides. *)
Ltac same_bind :=
  match goal with
  | |- bind ?m _ = bind ?m _ => destruct m; simpl; [| reflexivity]
  end.

Lemma draw_camera_fs_ext (self : Runner) (fs fs' : FileSystem) (i : nat)
  (camera_pose : mat) (s : LoopState) :
  (show_image (config self) = true ->
   forall path, nth_error (image_filenames self) i = Some path -> fs path = fs' path) ->
  draw_camera self fs i camera_pose s = draw_camera self fs' i camera_pose s.
Proof.
  intros H. unfold draw_camera. do 7 same_bind.
  destruct (show_image (config self)); [| reflexivity].
  rewrite (frustum_fs_ext self fs fs' i (H eq_refl)). reflexivity.
Qed.

(** The loop reads the file system only at the image files of the cameras
    that pass the skip test, and only when images are shown. *)
Lemma loop_fs_ext (self : Runner) (fs fs' : FileSystem) (camera_poses : list mat) :
  forall (i : nat) (st : LoopState),
    (forall j path,
        (j < length camera_poses)%nat ->
        show_image (config self) = true ->
        skip_test (config self) (rng st j) (i + j) = false ->
        nth_error (image_filenames self) (i + j) = Some path ->
        fs path = fs' path) ->
    loop self fs i camera_poses st = loop self fs' i camera_poses st.
Proof.
  induction camera_poses as [| p rest IH]; intros i st H; simpl; [reflexivity |].
  assert (Hb : loop_body self fs i p st = loop_body self fs' i p st).
  { destruct (skip_test (config self) (rng st O) i) eqn:Hskip.
    - rewrite !loop_body_skip by assumption. reflexivity.
    - rewrite !loop_body_draw by assumption.
      apply draw_camera_fs_ext. intros Hshow path Hpath.
      apply (H 0%nat path); rewrite ?Nat.add_0_r; simpl; auto; lia. }
  rewrite Hb. destruct (loop_body self fs' i p st) as [a |] eqn:E; simpl; [| reflexivity].
  destruct (loop_body_marks _ _ _ _ _ E) as (Hr & _).
  apply IH. intros j path Hj Hshow Hskip Hpath.
  replace (S i + j)%nat with (i + S j)%nat in * by lia.
  apply (H (S j) path); simpl; auto; [lia |]. rewrite <- Hr. assumption.
Qed.

(** C8, as stated, fails: with [show_image] false no image file is opened,
    so a call over three well-shaped poses shows its figure although every
    image file is missing. *)
Lemma C8_missing_file_counterexample :
  ~ (forall (self : Runner) (fs : FileSystem) (g : RandomState) (i : nat) (path : string),
        (i < length (camera_to_worlds (cameras self)))%nat ->
        nth_error (image_filenames self) i = Some path ->
        fs path = None ->
        exists e, vis self fs g = Raise e).
Proof.
  intros H.
  destruct (H (Sample.runner (Sample.cfg 5 0 1 None false) Sample.line3)
              Sample.empty_disk (Sample.constant 0.5) 0%nat "frame_0.png"%string)
    as [e He].
  - simpl; lia.
  - reflexivity.
  - reflexivity.
  - vm_compute in He. discriminate.
Qed.

(** C8, amended: [vis] recovers from nothing.  An empty camera set raises
    before the loop, and so does a pose one of whose first three rows has
    no fourth entry.  A missing image file raises when [show_image] is true
    and its camera passes the skip test; a pose with fewer than three rows
    raises when its camera passes the skip test.  The call reads no image
    file but those of the cameras that pass the skip test while
    [show_image] is true: two file systems that agree on these give the
    same result, so with [show_image] false, or for a skipped camera, a
    missing file raises nothing.  Whatever the loop raises is what the call
    raises; a [Raise] carries no figure. *)
Theorem C8_no_recovery (self : Runner) (fs : FileSystem) (g : RandomState) :
  (camera_to_worlds (cameras self) = [] -> vis self fs g = Raise IndexError)
  /\ (forall camera_pose row,
         In camera_pose (camera_to_worlds (cameras self)) ->
         In row (firstn 3 camera_pose) -> (length row < 4)%nat ->
         exists e, vis self fs g = Raise e)
  /\ (forall i camera_pose path,
         nth_error (camera_to_worlds (cameras self)) i = Some camera_pose ->
         show_image (config self) = true ->
         skip_test (config self) (g i) i = false ->
         nth_error (image_filenames self) i = Some path ->
         fs path = None ->
         exists e, vis self fs g = Raise e)
  /\ (forall i camera_pose,
         nth_error (camera_to_worlds (cameras self)) i = Some camera_pose ->
         skip_test (config self) (g i) i = false ->
         (length camera_pose < 3)%nat ->
         exists e, vis self fs g = Raise e)
  /\ (forall fs',
         (forall i path,
             show_image (config self) = true ->
             skip_test (config self) (g i) i = false ->
             nth_error (image_filenames self) i = Some path ->
             fs' path = fs path) ->
         vis self fs' g = vis self fs g)
  /\ (forall positions lo hi e,
         mapM translation (camera_to_worlds (cameras self)) = Ok positions ->
         reduce_dim0 Qmin positions = Ok lo ->
         reduce_dim0 Qmax positions = Ok hi ->
         loop self fs 0 (camera_to_worlds (cameras self)) (initial_state g lo hi)
         = Raise e ->
         vis self fs g = Raise e).
Proof.
  repeat split.
  - intros Hnil. unfold vis. rewrite Hnil. reflexivity.
  - intros cp row Hin Hrow Hlen.
    destruct (translation_short_row _ _ Hrow Hlen) as [e He].
    destruct (@mapM_Raise _ _ translation _ cp e Hin He) as [e' He'].
    exists e'. unfold vis. rewrite He'. reflexivity.
  - intros i cp path Hnth Hshow Hskip Hpath Hmiss.
    apply (@vis_Raise_at self fs g i cp Hnth).
    intros s Hs. rewrite loop_body_draw by (rewrite Hs; assumption).
    eapply draw_camera_missing_file; eassumption.
  - intros i cp Hnth Hskip Hshort.
    apply (@vis_Raise_at self fs g i cp Hnth).
    intros s Hs. rewrite loop_body_draw by (rewrite Hs; assumption).
    apply draw_camera_short_pose. assumption.
  - intros fs' Hsame. unfold vis.
    destruct (mapM translation (camera_to_worlds (cameras self))); simpl; [| reflexivity].
    destruct (reduce_dim0 Qmin a); simpl; [| reflexivity].
    destruct (reduce_dim0 Qmax a); simpl; [| reflexivity].
    rewrite (@loop_fs_ext self fs' fs (camera_to_worlds (cameras self)) 0%nat
               (initial_state g a0 a1)); [reflexivity |].
    intros j path _ Hshow Hskip Hpath. apply (Hsame j path); assumption.
  - intros positions lo hi e. apply loop_Raise_vis.
Qed.

Module C8_data.
Import Sample.

Definition self : Runner := runner (cfg 5 0 1 None true) line3.

End C8_data.

Lemma C8_no_recovery_witness :
  exists e, vis C8_data.self Sample.empty_disk (Sample.constant 0.5) = Raise e.
Proof.
  destruct (@C8_no_recovery C8_data.self Sample.empty_disk (Sample.constant 0.5))
    as (_ & _ & Hmissing & _).
  apply (Hmissing 0%nat (Sample.pose_at 0 0 0) "frame_0.png"%string); reflexivity.
Defined.

(** ** Bounds: order facts *)

(** Componentwise order on vectors of equal length. *)
Definition vle (a b : vec) : Prop := Forall2 Qle a b.

Lemma vle_refl (a : vec) : vle a a.
Proof. induction a; constructor; [apply Qle_refl | assumption]. Qed.

Lemma vle_trans (a b c : vec) : vle a b -> vle b c -> vle a c.
Proof.
  intros Hab. revert c. induction Hab as [| x y a b Hxy _ IH]; intros c Hbc.
  - inversion Hbc. constructor.
  - inversion Hbc as [| ? z ? c' Hyz Hbc']; subst.
    constructor; [eapply Qle_trans; eassumption | apply IH; assumption].
Qed.

Lemma vle_length (a b : vec) : vle a b -> length a = length b.
Proof. induction 1; simpl; congruence. Qed.

Lemma zip_with_length (f : Q -> Q -> Q) (a b : vec) :
  length a = length b -> length (zip_with f a b) = length a.
Proof.
  intros H. unfold zip_with. rewrite length_map, length_combine, H.
  apply Nat.min_id.
Qed.

Lemma zip_min_le (a : vec) :
  forall b, length a = length b ->
            vle (zip_with Qmin a b) a /\ vle (zip_with Qmin a b) b.
Proof.
  induction a as [| x a IH]; intros [| y b] H; simpl in H; try discriminate.
  - split; constructor.
  - destruct (IH b) as [Ha Hb]; [lia |].
    split; constructor; try assumption; [apply Q.le_min_l | apply Q.le_min_r].
Qed.

Lemma zip_max_ge (a : vec) :
  forall b, length a = length b ->
            vle a (zip_with Qmax a b) /\ vle b (zip_with Qmax a b).
Proof.
  induction a as [| x a IH]; intros [| y b] H; simpl in H; try discriminate.
  - split; constructor.
  - destruct (IH b) as [Ha Hb]; [lia |].
    split; constructor; try assumption; [apply Q.le_max_l | apply Q.le_max_r].
Qed.

Lemma broadcast2_same_length (f : Q -> Q -> Q) (a b : vec) :
  length a = length b -> broadcast2 f a b = Ok (zip_with f a b).
Proof.
  intros H. unfold broadcast2. rewrite H, Nat.eqb_refl. reflexivity.
Qed.

(** Folding corners in only lowers the lower bound and raises the upper. *)
Lemma expand_min_le (n : nat) (cs : list vec) :
  Forall (fun c => length c = n) cs ->
  forall b b', length b = n -> expand Qmin b cs = Ok b' ->
               vle b' b /\ length b' = n.
Proof.
  induction 1 as [| c cs Hc _ IH]; intros b b' Hb H; simpl in H.
  - injection H as <-. split; [apply vle_refl | assumption].
  - rewrite broadcast2_same_length in H by congruence. simpl in H.
    destruct (zip_min_le b c) as [Hle _]; [congruence |].
    destruct (IH _ _ (eq_trans (zip_with_length Qmin b c ltac:(congruence)) Hb) H)
      as [Hle' Hlen].
    split; [eapply vle_trans; eassumption | assumption].
Qed.

Lemma expand_max_ge (n : nat) (cs : list vec) :
  Forall (fun c => length c = n) cs ->
  forall b b', length b = n -> expand Qmax b cs = Ok b' ->
               vle b b' /\ length b' = n.
Proof.
  induction 1 as [| c cs Hc _ IH]; intros b b' Hb H; simpl in H.
  - injection H as <-. split; [apply vle_refl | assumption].
  - rewrite broadcast2_same_length in H by congruence. simpl in H.
    destruct (zip_max_ge b c) as [Hle _]; [congruence |].
    destruct (IH _ _ (eq_trans (zip_with_length Qmax b c ltac:(congruence)) Hb) H)
      as [Hle' Hlen].
    split; [eapply vle_trans; eassumption | assumption].
Qed.

(** [torch.min(positions, dim=0)] is below every row, [torch.max] above. *)
Lemma fold_zip_min_le (n : nat) (rs : list vec) :
  Forall (fun t => length t = n) rs ->
  forall r, length r = n ->
    vle (fold_left (zip_with Qmin) rs r) r
    /\ Forall (fun t => vle (fold_left (zip_with Qmin) rs r) t) rs.
Proof.
  induction 1 as [| t rs Ht _ IH]; intros r Hr; simpl.
  - split; [apply vle_refl | constructor].
  - destruct (zip_min_le r t) as [Hl Hrt]; [congruence |].
    destruct (IH (zip_with Qmin r t)) as [H1 H2];
      [rewrite zip_with_length; congruence |].
    split; [eapply vle_trans; eassumption |].
    constructor; [eapply vle_trans; eassumption | assumption].
Qed.

Lemma fold_zip_max_ge (n : nat) (rs : list vec) :
  Forall (fun t => length t = n) rs ->
  forall r, length r = n ->
    vle r (fold_left (zip_with Qmax) rs r)
    /\ Forall (fun t => vle t (fold_left (zip_with Qmax) rs r)) rs.
Proof.
  induction 1 as [| t rs Ht _ IH]; intros r Hr; simpl.
  - split; [apply vle_refl | constructor].
  - destruct (zip_max_ge r t) as [Hl Hrt]; [congruence |].
    destruct (IH (zip_with Qmax r t)) as [H1 H2];
      [rewrite zip_with_length; congruence |].
    split; [eapply vle_trans; eassumption |].
    constructor; [eapply vle_trans; eassumption | assumption].
Qed.

Lemma reduce_dim0_min_le (n : nat) (rows : list vec) (lo : vec) :
  Forall (fun t => length t = n) rows ->
  reduce_dim0 Qmin rows = Ok lo -> Forall (fun t => vle lo t) rows.
Proof.
  destruct rows as [| r rs]; simpl; intros Hlen H; [discriminate |].
  ok_inv H. apply Forall_cons_iff in Hlen. destruct Hlen as [Hr Hrs].
  destruct (fold_zip_min_le Hrs r Hr). constructor; assumption.
Qed.

Lemma reduce_dim0_max_ge (n : nat) (rows : list vec) (hi : vec) :
  Forall (fun t => length t = n) rows ->
  reduce_dim0 Qmax rows = Ok hi -> Forall (fun t => vle t hi) rows.
Proof.
  destruct rows as [| r rs]; simpl; intros Hlen H; [discriminate |].
  ok_inv H. apply Forall_cons_iff in Hlen. destruct Hlen as [Hr Hrs].
  destruct (fold_zip_max_ge Hrs r Hr). constructor; assumption.
Qed.

Lemma zip_pick (f : Q -> Q -> Q) :
  (forall x y, f x y = x \/ f x y = y) ->
  forall a b, length a = length b ->
  forall k, nth_error (zip_with f a b) k = nth_error a k
            \/ nth_error (zip_with f a b) k = nth_error b k.
Proof.
  intros Hf. induction a as [| x a IH]; intros [| y b] H k; simpl in H; try discriminate.
  - left; reflexivity.
  - destruct k as [| k]; simpl.
    + destruct (Hf x y) as [-> | ->]; auto.
    + apply IH. lia.
Qed.

Lemma fold_zip_pick (f : Q -> Q -> Q) (n : nat) (rs : list vec) :
  (forall x y, f x y = x \/ f x y = y) ->
  Forall (fun t => length t = n) rs ->
  forall r k, length r = n ->
    exists t, In t (r :: rs)
              /\ nth_error (fold_left (zip_with f) rs r) k = nth_error t k.
Proof.
  intros Hf. induction 1 as [| t rs Ht _ IH]; intros r k Hr; simpl.
  - exists r. auto.
  - destruct (IH (zip_with f r t) k) as (u & [Hu | Hu] & Hk);
      [rewrite zip_with_length; congruence | |].
    + subst u. destruct (@zip_pick f Hf r t ltac:(congruence) k) as [E | E];
        rewrite E in Hk; eauto.
    + eauto.
Qed.

(** [b] is the componentwise [f]-extremum of the rows. *)
Definition attained (b : vec) (rows : list vec) : Prop :=
  forall k, exists t, In t rows /\ nth_error b k = nth_error t k.

Lemma reduce_dim0_attained (f : Q -> Q -> Q) (n : nat) (rows : list vec) (b : vec) :
  (forall x y, f x y = x \/ f x y = y) ->
  Forall (fun t => length t = n) rows ->
  reduce_dim0 f rows = Ok b -> attained b rows.
Proof.
  intros Hf. destruct rows as [| r rs]; simpl; intros Hlen H; [discriminate |].
  injection H as <-. apply Forall_cons_iff in Hlen. destruct Hlen as [Hr Hrs].
  intros k. apply (@fold_zip_pick f n rs Hf Hrs r k Hr).
Qed.

(** ** Bounds: what an iteration does to them *)

Lemma loop_body_bounds (self : Runner) (fs : FileSystem) (i : nat) (camera_pose : mat)
  (st st' : LoopState) :
  loop_body self fs i camera_pose st = Ok st' ->
  exists corners,
    expand Qmin (min_pos st) corners = Ok (min_pos st')
    /\ expand Qmax (max_pos st) corners = Ok (max_pos st')
    /\ Forall (fun c => length c = 3%nat) corners
    /\ if negb (skip_test (config self) (rng st O) i) && show_image (config self)
       then exists surf, frustum self fs i = Ok (surf, corners)
       else corners = [].
Proof.
  intros H. destruct (skip_test (config self) (rng st O) i) eqn:Hskip.
  - rewrite loop_body_skip in H by assumption. ok_inv H.
    exists []. simpl. repeat split. constructor.
  - rewrite loop_body_draw in H by assumption.
    apply draw_camera_inv in H. destruct H. simpl in Hmid. simpl.
    destruct (show_image (config self)).
    + destruct Hmid as (surf & corners & lines & Hf & _ & _ & Hmin & Hmax).
      exists corners. repeat split; try assumption; [| eauto].
      apply frustum_inv in Hf.
      destruct Hf as (? & ? & ? & ? & ? & ? & ? & _ & _ & _ & _ & _ & _ & H3).
      exact H3.
    + destruct Hmid as (_ & Hmin & Hmax).
      exists []. simpl. rewrite Hmin, Hmax. repeat split. constructor.
Qed.

(** The cameras whose frustum was folded into the bounds after [n]
    iterations. *)
Definition rendered (self : Runner) (g : RandomState) (n : nat) : list nat :=
  if show_image (config self) then filter (kept self g) (seq 0 n) else [].

Lemma rendered_S (self : Runner) (g : RandomState) (j : nat) :
  rendered self g (S j)
  = rendered self g j
    ++ (if negb (skips self g j) && show_image (config self) then [j] else []).
Proof.
  unfold rendered. destruct (show_image (config self)).
  - rewrite seq_S_filter. unfold kept at 2. rewrite andb_true_r. reflexivity.
  - rewrite andb_false_r. reflexivity.
Qed.

Definition bounds_progress (self : Runner) (fs : FileSystem) (g : RandomState)
  (lo hi : vec) (j : nat) (s : LoopState) : Prop :=
  (forall n, rng s n = g (j + n)%nat)
  /\ exists css,
       Forall2 (fun i cs => exists surf, frustum self fs i = Ok (surf, cs))
         (rendered self g j) css
       /\ expand Qmin lo (concat css) = Ok (min_pos s)
       /\ expand Qmax hi (concat css) = Ok (max_pos s).

Lemma bounds_progress_step (self : Runner) (fs : FileSystem) (g : RandomState)
  (lo hi : vec) (j : nat) (camera_pose : mat) (s s' : LoopState) :
  bounds_progress self fs g lo hi j s ->
  loop_body self fs j camera_pose s = Ok s' ->
  bounds_progress self fs g lo hi (S j) s'.
Proof.
  intros (Hr & css & Hcss & Hmin & Hmax) H.
  destruct (loop_body_marks _ _ _ _ _ H) as (Hr' & _).
  destruct (loop_body_bounds _ _ _ _ _ H) as (corners & Hmin' & Hmax' & _ & Hc).
  assert (H0 : rng s O = g j) by (rewrite Hr; f_equal; lia).
  rewrite H0 in Hc. fold (skips self g j) in Hc.
  split; [intros n; rewrite Hr', Hr; f_equal; lia |].
  rewrite rendered_S.
  destruct (negb (skips self g j) && show_image (config self)).
  - exists (css ++ [corners]). rewrite concat_app. simpl. rewrite app_nil_r.
    split; [| split].
    + apply Forall2_app; [assumption | constructor; [assumption | constructor]].
    + rewrite (@expand_app Qmin (concat css) corners lo _ Hmin). assumption.
    + rewrite (@expand_app Qmax (concat css) corners hi _ Hmax). assumption.
  - subst corners. simpl in Hmin', Hmax'. exists css. rewrite app_nil_r.
    injection Hmin' as <-. injection Hmax' as <-. auto.
Qed.

Lemma loop_bounds (self : Runner) (fs : FileSystem) (g : RandomState)
  (lo hi : vec) (camera_poses : list mat) (st : LoopState) :
  loop self fs 0 camera_poses (initial_state g lo hi) = Ok st ->
  bounds_progress self fs g lo hi (length camera_poses) st.
Proof.
  intros H.
  apply (@loop_invariant self fs (bounds_progress self fs g lo hi) camera_poses
           0%nat (initial_state g lo hi) st); [| | assumption].
  - split; [reflexivity |]. exists []. unfold rendered. simpl.
    destruct (show_image (config self)); repeat split; constructor.
  - intros j cp s s' _ _ Hp Hb. eapply bounds_progress_step; eassumption.
Qed.

(** ** C9 *)



(** ** C10 *)

(** Every camera position lies between the bounds, componentwise. *)
Definition within_bounds (positions : list vec) (st : LoopState) : Prop :=
  Forall (fun t => vle (min_pos st) t /\ vle t (max_pos st)) positions.

Lemma within_bounds_mono (positions : list vec) (st st' : LoopState) :
  vle (min_pos st') (min_pos st) -> vle (max_pos st) (max_pos st') ->
  within_bounds positions st -> within_bounds positions st'.
Proof.
  intros Hmin Hmax H. unfold within_bounds in *.
  eapply Forall_impl; [| exact H].
  intros t [H1 H2]. split; eapply vle_trans; eassumption.
Qed.

Lemma within_bounds_length (positions : list vec) (st : LoopState) :
  positions <> [] -> Forall (fun t => length t = 3%nat) positions ->
  within_bounds positions st ->
  length (min_pos st) = 3%nat /\ length (max_pos st) = 3%nat.
Proof.
  destruct positions as [| t ts]; [congruence |]. intros _ Hlen H.
  apply Forall_cons_iff in Hlen. destruct Hlen as [Ht _].
  apply Forall_cons_iff in H. destruct H as [[H1 H2] _].
  apply vle_length in H1, H2. split; congruence.
Qed.

Lemma corner_step_monotone (p : vec) (st st' : LoopState) (corner : vec) :
  length (min_pos st) = length corner -> length (max_pos st) = length corner ->
  corner_step p st corner = Ok st' ->
  vle (min_pos st') (min_pos st) /\ vle (max_pos st) (max_pos st').
Proof.
  intros Hmin Hmax H. unfold corner_step in H.
  bind_inv H. bind_inv H. bind_inv H. ok_inv H. simpl.
  rewrite broadcast2_same_length in E0, E1 by assumption.
  injection E0 as <-. injection E1 as <-.
  split; [apply zip_min_le | apply zip_max_ge]; assumption.
Qed.

Lemma loop_body_monotone (self : Runner) (fs : FileSystem) (i : nat)
  (camera_pose : mat) (st st' : LoopState) :
  length (min_pos st) = 3%nat -> length (max_pos st) = 3%nat ->
  loop_body self fs i camera_pose st = Ok st' ->
  vle (min_pos st') (min_pos st) /\ vle (max_pos st) (max_pos st').
Proof.
  intros Hmin Hmax H.
  destruct (loop_body_bounds _ _ _ _ _ H) as (corners & Emin & Emax & H3 & _).
  destruct (expand_min_le H3 _ Hmin Emin) as [Hle _].
  destruct (expand_max_ge H3 _ Hmax Emax) as [Hge _].
  split; assumption.
Qed.

(** C10: for well-shaped poses, every camera position lies componentwise
    between the bounds the loop starts from; every iteration that
    completes, and every corner step inside it, leaves each component of
    [min_pos] no larger and each component of [max_pos] no smaller, and so
    keeps every camera position between the bounds; hence the same holds
    after any number of iterations. *)
Theorem C10_bounds_invariant (self : Runner) (fs : FileSystem) (g : RandomState)
  (positions : list vec) (lo hi : vec) :
  Forall pose_ok (camera_to_worlds (cameras self)) ->
  mapM translation (camera_to_worlds (cameras self)) = Ok positions ->
  reduce_dim0 Qmin positions = Ok lo ->
  reduce_dim0 Qmax positions = Ok hi ->
  within_bounds positions (initial_state g lo hi)
  /\ (forall i camera_pose st st',
         within_bounds positions st ->
         loop_body self fs i camera_pose st = Ok st' ->
         vle (min_pos st') (min_pos st) /\ vle (max_pos st) (max_pos st')
         /\ within_bounds positions st')
  /\ (forall p corner st st',
         length corner = 3%nat ->
         within_bounds positions st ->
         corner_step p st corner = Ok st' ->
         vle (min_pos st') (min_pos st) /\ vle (max_pos st) (max_pos st')
         /\ within_bounds positions st')
  /\ (forall n st,
         loop self fs 0 (firstn n (camera_to_worlds (cameras self)))
           (initial_state g lo hi) = Ok st ->
         vle (min_pos st) lo /\ vle hi (max_pos st)
         /\ within_bounds positions st).
Proof.
  intros Hok Hpos Hlo Hhi.
  destruct (positions_ok Hok) as (positions' & Hpos' & Hlen).
  rewrite Hpos in Hpos'. injection Hpos' as <-.
  assert (Hne : positions <> []) by (intros ->; discriminate).
  assert (Hinit : within_bounds positions (initial_state g lo hi)).
  { unfold within_bounds. simpl.
    pose proof (reduce_dim0_min_le Hlen Hlo) as H1.
    pose proof (reduce_dim0_max_ge Hlen Hhi) as H2.
    rewrite Forall_forall in *. auto. }
  assert (Hstep : forall i camera_pose st st',
             within_bounds positions st ->
             loop_body self fs i camera_pose st = Ok st' ->
             vle (min_pos st') (min_pos st) /\ vle (max_pos st) (max_pos st')
             /\ within_bounds positions st').
  { intros i cp st st' Hin Hb.
    destruct (within_bounds_length Hne Hlen Hin) as [L1 L2].
    destruct (loop_body_monotone _ _ _ _ _ L1 L2 Hb) as [M1 M2].
    split; [assumption | split; [assumption |]].
    eapply within_bounds_mono; eassumption. }
  split; [assumption | split; [assumption | split]].
  - intros p corner st st' Hc Hin Hs.
    destruct (within_bounds_length Hne Hlen Hin) as [L1 L2].
    destruct (@corner_step_monotone p st st' corner) as [M1 M2]; try congruence.
    split; [assumption | split; [assumption |]].
    eapply within_bounds_mono; eassumption.
  - intros n st Hloop.
    pose (P := fun (_ : nat) (s : LoopState) =>
                 vle (min_pos s) lo /\ vle hi (max_pos s)
                 /\ within_bounds positions s).
    apply (@loop_invariant self fs P
             (firstn n (camera_to_worlds (cameras self)))
             0%nat (initial_state g lo hi) st); [| | assumption].
    + unfold P. simpl. repeat split; try apply vle_refl. assumption.
    + unfold P. intros j cp s s' _ _ (A1 & A2 & A3) Hb.
      destruct (Hstep j cp s s' A3 Hb) as (B1 & B2 & B3).
      split; [eapply vle_trans; eassumption |].
      split; [eapply vle_trans; eassumption | assumption].
Qed.

Lemma C10_bounds_invariant_witness :
  within_bounds [[0; 0; 0]; [1; 0; 0]; [2; 0; 0]]
    (initial_state (Sample.constant 0.5) [0; 0; 0] [2; 0; 0])
  /\ forall st,
       loop Plain_run.self Sample.empty_disk 0 Sample.line3
         (initial_state (Sample.constant 0.5) [0; 0; 0] [2; 0; 0]) = Ok st ->
       within_bounds [[0; 0; 0]; [1; 0; 0]; [2; 0; 0]] st.
Proof.
  destruct (@C10_bounds_invariant Plain_run.self Sample.empty_disk
              (Sample.constant 0.5)
              [[0; 0; 0]; [1; 0; 0]; [2; 0; 0]] [0; 0; 0] [2; 0; 0])
    as (Hinit & _ & _ & Hloop).
  - unfold pose_ok. repeat constructor; simpl; lia.
  - reflexivity.
  - reflexivity.
  - reflexivity.
  - split; [exact Hinit |].
    intros st Hst. apply (Hloop 3%nat st Hst).
Defined.

(** * Further properties of [vis] *)

(** ** Every camera is handled once *)

(** [str] is Python's decimal rendering of an index: distinct indices get
    distinct labels. *)
Lemma str_injective (i j : nat) : str i = str j -> i = j.
Proof.
  unfold str. intros H.
  assert (Hu : Nat.to_uint i = Nat.to_uint j).
  { assert (Hs : Some (Nat.to_uint i) = Some (Nat.to_uint j))
      by (rewrite <- !NilEmpty.usu, H; reflexivity).
    injection Hs as Hs. exact Hs. }
  rewrite <- (DecimalNat.Unsigned.of_to i), <- (DecimalNat.Unsigned.of_to j), Hu.
  reflexivity.
Qed.

(** The strings of the text artists of a figure, in drawing order. *)
Definition labels (fig : list artist) : list string :=
  flat_map (fun a => match a with text _ _ _ s _ _ => [s] | _ => [] end) fig.

Definition mark_labels (ms : list mark) : list string :=
  flat_map (fun m => match m with label s => [s] | _ => [] end) ms.

Lemma labels_marks (fig : list artist) : labels fig = mark_labels (map mark_of fig).
Proof.
  unfold labels, mark_labels. induction fig as [| a fig IH]; simpl; [reflexivity |].
  rewrite IH. destruct a; reflexivity.
Qed.

Lemma mark_labels_app (a b : list mark) :
  mark_labels (a ++ b) = mark_labels a ++ mark_labels b.
Proof. unfold mark_labels. apply flat_map_app. Qed.

Lemma mark_labels_cameras (cfg : VisConfig) (l : list nat) :
  mark_labels (flat_map (camera_marks cfg) l) = map str l.
Proof.
  induction l as [| i l IH]; simpl; [reflexivity |].
  rewrite mark_labels_app, IH. f_equal.
  unfold camera_marks. destruct (show_image cfg); reflexivity.
Qed.

Lemma camera_marks_length (cfg : VisConfig) (l : list nat) :
  length (flat_map (camera_marks cfg) l)
  = ((if show_image cfg then 9 else 4) * length l)%nat.
Proof.
  induction l as [| i l IH]; cbn [flat_map]; [simpl; lia |].
  rewrite length_app, IH. unfold camera_marks.
  destruct (show_image cfg); cbn [length app repeat]; lia.
Qed.

Lemma filter_partition_length (A : Type) (f : A -> bool) (l : list A) :
  (length (filter f l) + length (filter (fun x => negb (f x)) l) = length l)%nat.
Proof.
  induction l as [| x l IH]; simpl; [reflexivity |].
  destruct (f x); simpl; lia.
Qed.

Lemma NoDup_map_str (l : list nat) : NoDup l -> NoDup (map str l).
Proof.
  induction 1 as [| i l Hi _ IH]; simpl; constructor; [| assumption].
  intros Hin. apply in_map_iff in Hin. destruct Hin as [j [Hj Hin]].
  apply str_injective in Hj. subst j. contradiction.
Qed.

Lemma labels_NoDup (self : Runner) (fs : FileSystem)
  (g : RandomState) (out : Shown) :
  vis self fs g = Ok out -> NoDup (labels (figure out)).
Proof.
  intros H. destruct (vis_summary _ _ _ H) as (_ & _ & Hm).
  rewrite labels_marks, Hm, mark_labels_app, mark_labels_cameras.
  simpl. rewrite app_nil_r. apply NoDup_map_str, NoDup_filter, seq_NoDup.
Qed.

(** X1: a completed call handles each index [0 .. N-1] exactly once:
    either the index is in the skipped list or its decimal label is in
    the figure, never both; labels appear in increasing index order, and
    neither list repeats an entry. *)
Theorem each_camera_skipped_or_labelled (self : Runner) (fs : FileSystem)
  (g : RandomState) (out : Shown) :
  vis self fs g = Ok out ->
  labels (figure out)
  = map str (filter (fun i => negb (existsb (Nat.eqb i) (skipped_frames out)))
               (seq 0 (length (camera_to_worlds (cameras self)))))
  /\ (forall i, (i < length (camera_to_worlds (cameras self)))%nat ->
        (In i (skipped_frames out) <-> ~ In (str i) (labels (figure out))))
  /\ (length (skipped_frames out) + length (labels (figure out))
      = length (camera_to_worlds (cameras self)))%nat
  /\ NoDup (skipped_frames out)
  /\ NoDup (labels (figure out)).
Proof.
  intros H. destruct (vis_summary _ _ _ H) as (Hs & _ & Hm).
  set (n := length (camera_to_worlds (cameras self))) in *.
  assert (Hl : labels (figure out) = map str (filter (kept self g) (seq 0 n))).
  { rewrite labels_marks, Hm, mark_labels_app, mark_labels_cameras.
    simpl. apply app_nil_r. }
  assert (Hk : filter (fun i => negb (existsb (Nat.eqb i) (skipped_frames out))) (seq 0 n)
               = filter (kept self g) (seq 0 n)).
  { apply filter_ext_in. intros i Hi. apply in_seq in Hi.
    rewrite Hs, mem_filter_seq by lia. reflexivity. }
  split; [rewrite Hk; assumption |].
  split; [| split; [| split]].
  - intros i Hi. rewrite Hl, Hs, filter_In, in_map_iff. split.
    + intros [_ Hsk] [j [Hj Hin]]. apply str_injective in Hj. subst j.
      apply filter_In in Hin. unfold kept in Hin. rewrite Hsk in Hin.
      destruct Hin; discriminate.
    + intros Hno. split; [apply in_seq; lia |].
      destruct (skips self g i) eqn:E; [reflexivity | exfalso].
      apply Hno. exists i. split; [reflexivity |].
      apply filter_In. split; [apply in_seq; lia |]. unfold kept. rewrite E. reflexivity.
  - rewrite Hl, length_map, Hs. unfold kept.
    rewrite filter_partition_length. apply length_seq.
  - rewrite Hs. apply NoDup_filter, seq_NoDup.
  - rewrite Hl. apply NoDup_map_str, NoDup_filter, seq_NoDup.
Qed.

Lemma each_camera_skipped_or_labelled_witness :
  vis C1_data.self (Sample.disk 8) C1_data.gen = Ok C1_data.shown
  /\ labels (figure C1_data.shown) = ["5"%string]
  /\ (length (skipped_frames C1_data.shown) + length (labels (figure C1_data.shown))
      = 8)%nat.
Proof.
  split; [vm_compute; reflexivity |].
  destruct (@each_camera_skipped_or_labelled C1_data.self (Sample.disk 8)
              C1_data.gen C1_data.shown)
    as (Hl & _ & Hn & _).
  - vm_compute; reflexivity.
  - split; [exact Hl | exact Hn].
Defined.

(** X2: the number of artists of a completed call: nine world-axis
    artists, plus four per drawn camera (triad and label) without images
    or nine per drawn camera (also surface and four edges) with images. *)
Theorem figure_size (self : Runner) (fs : FileSystem) (g : RandomState)
  (out : Shown) :
  vis self fs g = Ok out ->
  length (figure out)
  = ((if show_image (config self) then 9 else 4)
     * (length (camera_to_worlds (cameras self)) - length (skipped_frames out))
     + 9)%nat.
Proof.
  intros H. destruct (vis_summary _ _ _ H) as (Hs & _ & Hm).
  rewrite <- (length_map mark_of), Hm, length_app, camera_marks_length.
  pose proof (filter_partition_length (skips self g)
                (seq 0 (length (camera_to_worlds (cameras self))))) as Hp.
  rewrite length_seq in Hp. rewrite <- Hs in Hp.
  unfold kept. simpl.
  replace (length (camera_to_worlds (cameras self)) - length (skipped_frames out))%nat
    with (length (filter (fun x => negb (skips self g x))
                    (seq 0 (length (camera_to_worlds (cameras self)))))) by lia.
  reflexivity.
Qed.

Lemma figure_size_witness :
  vis C4_data.self (Sample.disk 8) (Sample.constant 0.5) = Ok C4_data.shown
  /\ length (figure C4_data.shown) = 27%nat.
Proof.
  split; [vm_compute; reflexivity |].
  apply (@figure_size C4_data.self (Sample.disk 8) (Sample.constant 0.5)).
  vm_compute; reflexivity.
Defined.

(** ** One sample per camera *)

(** X3: every iteration draws exactly one sample, whether the camera is
    skipped or drawn; after a loop over [N] poses the generator has
    advanced by [N] samples, and the decision for camera [i] was taken on
    sample [i]. *)
Theorem one_sample_per_camera (self : Runner) (fs : FileSystem) (g : RandomState)
  (lo hi : vec) (camera_poses : list mat) (st : LoopState) :
  loop self fs 0 camera_poses (initial_state g lo hi) = Ok st ->
  (forall n, rng st n = g (length camera_poses + n)%nat)
  /\ skipped st
     = filter (fun i => skip_test (config self) (g i) i) (seq 0 (length camera_poses)).
Proof.
  intros H. apply loop_progress in H. destruct H as (Hr & Hs & _).
  split; assumption.
Qed.

Module Loop_data.
Import Sample.

Definition blank : LoopState :=
  {| rng := fun _ => 0; skipped := []; min_pos := []; max_pos := []; ax := [] |}.

(** The state after the loop of [C1_data.self]. *)
Definition after_c1 : LoopState :=
  Eval vm_compute in
    match loop C1_data.self (disk 8) 0 line8
            (initial_state C1_data.gen [0; 0; 0] [7; 0; 0]) with
    | Ok st => st
    | Raise _ => blank
    end.

(** The state after the loop of [C4_data.self]. *)
Definition after_c4 : LoopState :=
  Eval vm_compute in
    match loop C4_data.self (disk 8) 0 line8
            (initial_state (constant 0.5) [0; 0; 0] [7; 0; 0]) with
    | Ok st => st
    | Raise _ => blank
    end.

End Loop_data.

Lemma one_sample_per_camera_witness :
  loop C1_data.self (Sample.disk 8) 0 Sample.line8
    (initial_state C1_data.gen [0; 0; 0] [7; 0; 0]) = Ok Loop_data.after_c1
  /\ rng Loop_data.after_c1 0%nat = C1_data.gen 8%nat
  /\ skipped Loop_data.after_c1 = [0; 1; 2; 3; 4; 6; 7]%nat.
Proof.
  split; [vm_compute; reflexivity |].
  destruct (@one_sample_per_camera C1_data.self (Sample.disk 8) C1_data.gen
              [0; 0; 0] [7; 0; 0] Sample.line8 Loop_data.after_c1) as [Hr Hs].
  - vm_compute; reflexivity.
  - split; [apply (Hr 0%nat) | exact Hs].
Defined.

(** ** Labels and frustum edges *)

(** The call of [draw_camera] for a camera that passes the skip test, and
    the artists it left in the final axes object. *)
Lemma loop_reaches (self : Runner) (fs : FileSystem) (camera_poses : list mat) :
  forall (i j : nat) (st st' : LoopState) (camera_pose : mat),
    loop self fs i camera_poses st = Ok st' ->
    nth_error camera_poses j = Some camera_pose ->
    skip_test (config self) (rng st j) (i + j) = false ->
    exists s s' after,
      draw_camera self fs (i + j) camera_pose s = Ok s' /\ ax st' = ax s' ++ after.
Proof.
  induction camera_poses as [| p rest IH]; intros i j st st' cp H Hnth Hskip.
  - destruct j; discriminate.
  - simpl in H. bind_inv H. destruct j as [| j'].
    + simpl in Hnth. ok_inv Hnth. rewrite Nat.add_0_r in *.
      rewrite loop_body_draw in E by assumption.
      destruct (loop_extends _ _ _ _ _ H) as [after Hafter].
      eauto.
    + simpl in Hnth.
      destruct (loop_body_marks _ _ _ _ _ E) as (Hr & _).
      replace (i + S j')%nat with (S i + j')%nat in * by lia.
      apply (IH (S i) j' a st' cp H Hnth).
      rewrite Hr. assumption.
Qed.

Lemma for_corners_lines (p : vec) (cs : list vec) :
  forall st st',
    for_corners p cs st = Ok st' ->
    exists lines,
      mapM (fun c => segment p c gray) cs = Ok lines /\ ax st' = ax st ++ lines.
Proof.
  induction cs as [| c cs IH]; simpl; intros st st' H.
  - ok_inv H. exists []. rewrite app_nil_r. auto.
  - bind_inv H. unfold corner_step in E.
    bind_inv E. bind_inv E. bind_inv E. ok_inv E.
    apply IH in H. simpl in H. destruct H as (lines & Hl & Hax).
    fold gray in E0. rewrite E0, Hl. simpl.
    eexists. split; [reflexivity |]. rewrite Hax, <- app_assoc. reflexivity.
Qed.

(** The frustum part of a successful [draw_camera]. *)
Lemma draw_camera_frustum (self : Runner) (fs : FileSystem) (i : nat)
  (camera_pose : mat) (s s' : LoopState) :
  show_image (config self) = true ->
  draw_camera self fs i camera_pose s = Ok s' ->
  exists p surf corners lines before p0 p1 p2,
    translation camera_pose = Ok p
    /\ frustum self fs i = Ok (surf, corners)
    /\ mapM (fun c => segment p c gray) corners = Ok lines
    /\ nth_error p 0 = Some p0 /\ nth_error p 1 = Some p1 /\ nth_error p 2 = Some p2
    /\ ax s' = before ++ surf :: lines ++ [text p0 p1 p2 (str i) black 10].
Proof.
  intros Hshow H. unfold draw_camera in H. rewrite Hshow in H.
  bind_inv H. rename a into p, E into Hp.
  bind_inv H. bind_inv H. bind_inv H. bind_inv H. bind_inv H. bind_inv H.
  bind_inv H. rename E5 into Hfr. bind_inv Hfr. destruct a6 as [surf corners].
  apply for_corners_lines in Hfr. destruct Hfr as (lines & Hl & Hax).
  bind_inv H. bind_inv H. bind_inv H. ok_inv H.
  rewrite getitem_Ok in *. simpl in *.
  exists p, surf, corners, lines, (ax s ++ [a2; a3; a4]), a6, a7, a8.
  repeat split; try eassumption.
  rewrite Hax, <- !app_assoc. reflexivity.
Qed.

Lemma unique_label (fig : list artist) (a b : artist) (s : string) :
  NoDup (labels fig) -> In a fig -> In b fig ->
  mark_of a = label s -> mark_of b = label s -> a = b.
Proof.
  induction fig as [| c fig IH]; simpl; intros Hnd Ha Hb Hma Hmb; [tauto |].
  assert (Hin : forall d, In d fig -> mark_of d = label s -> In s (labels fig)).
  { intros d Hd Hmd. unfold labels. apply in_flat_map. exists d.
    split; [assumption |]. destruct d; try discriminate.
    simpl in Hmd. injection Hmd as ->. left; reflexivity. }
  unfold labels in Hnd. simpl in Hnd. fold (labels fig) in Hnd.
  destruct Ha as [-> | Ha], Hb as [-> | Hb].
  - reflexivity.
  - exfalso. destruct a; try discriminate. simpl in Hma. injection Hma as ->.
    simpl in Hnd. inversion Hnd; subst. eauto.
  - exfalso. destruct b; try discriminate. simpl in Hmb. injection Hmb as ->.
    simpl in Hnd. inversion Hnd; subst. eauto.
  - apply IH; try assumption.
    destruct c; simpl in Hnd; try assumption. inversion Hnd; assumption.
Qed.

(** X4: a camera that is not skipped gets a black label of size 10 with
    its decimal index at its position, and no other text artist of the
    figure carries that index. *)
Theorem label_at_camera_position (self : Runner) (fs : FileSystem)
  (g : RandomState) (out : Shown) (i : nat)
  (r00 r01 r02 t0 r10 r11 r12 t1 r20 r21 r22 t2 : Q) (rest : mat) :
  vis self fs g = Ok out ->
  nth_error (camera_to_worlds (cameras self)) i
  = Some ([r00; r01; r02; t0] :: [r10; r11; r12; t1] :: [r20; r21; r22; t2] :: rest) ->
  skip_test (config self) (g i) i = false ->
  In (text t0 t1 t2 (str i) black 10) (figure out)
  /\ forall x y z c size,
       In (text x y z (str i) c size) (figure out) ->
       text x y z (str i) c size = text t0 t1 t2 (str i) black 10.
Proof.
  intros H Hnth Hskip.
  pose proof (labels_NoDup _ _ _ H) as Hnd.
  assert (Hin : In (text t0 t1 t2 (str i) black 10) (figure out)).
  { apply vis_inv in H.
    destruct H as (positions & lo & hi & st & M & m & _ & _ & _ & Hloop & _ & _ & ->).
    destruct (loop_draws _ _ _ 0 i _ Hloop Hnth Hskip) as (s & s' & after & Hd & Hax).
    destruct Hd.
    cbv [translation column firstn mapM getitem nth_error bind] in Hp. ok_inv Hp.
    simpl in Hp0, Hp1, Hp2. ok_inv Hp0. ok_inv Hp1. ok_inv Hp2.
    simpl figure. rewrite Hax, Hax0. rewrite !in_app_iff. simpl. tauto. }
  split; [assumption |].
  intros x y z c size Hin'.
  apply (@unique_label (figure out) _ _ (str i) Hnd Hin' Hin); reflexivity.
Qed.

Lemma label_at_camera_position_witness :
  vis C4_data.self (Sample.disk 8) (Sample.constant 0.5) = Ok C4_data.shown
  /\ In (text 5 0 0 "5" black 10) (figure C4_data.shown).
Proof.
  split; [vm_compute; reflexivity |].
  destruct (@label_at_camera_position C4_data.self (Sample.disk 8)
              (Sample.constant 0.5) C4_data.shown 5%nat
              1 0 0 5 0 1 0 0 0 0 1 0 []) as [Hin _].
  - vm_compute; reflexivity.
  - reflexivity.
  - reflexivity.
  - exact Hin.
Defined.

(** The gray segment from a camera position to a frustum corner. *)
Definition frustum_edge (t0 t1 t2 : Q) (corner : vec) : artist :=
  plot [t0; nth 0 corner 0] [t1; nth 1 corner 0] [t2; nth 2 corner 0] gray.

Lemma vec3_shape (c : vec) :
  length c = 3%nat -> c = [nth 0 c 0; nth 1 c 0; nth 2 c 0].
Proof.
  destruct c as [| x [| y [| z [| w c]]]]; simpl; intros H; try discriminate.
  reflexivity.
Qed.

(** X5: with [show_image] true, a camera that is not skipped gets, right
    after its surface, four half-transparent gray segments from its
    position to the four corner points that [frustum] returns, in that
    order, and then its label. *)
Theorem frustum_edges_from_camera (self : Runner) (fs : FileSystem)
  (g : RandomState) (out : Shown) (i : nat)
  (r00 r01 r02 t0 r10 r11 r12 t1 r20 r21 r22 t2 : Q) (rest : mat) :
  vis self fs g = Ok out ->
  show_image (config self) = true ->
  nth_error (camera_to_worlds (cameras self)) i
  = Some ([r00; r01; r02; t0] :: [r10; r11; r12; t1] :: [r20; r21; r22; t2] :: rest) ->
  skip_test (config self) (g i) i = false ->
  exists surf c0 c1 c2 c3 before after,
    frustum self fs i = Ok (surf, [c0; c1; c2; c3])
    /\ figure out
       = before
         ++ [ surf;
              frustum_edge t0 t1 t2 c0; frustum_edge t0 t1 t2 c1;
              frustum_edge t0 t1 t2 c2; frustum_edge t0 t1 t2 c3;
              text t0 t1 t2 (str i) black 10 ]
         ++ after.
Proof.
  intros H Hshow Hnth Hskip. apply vis_inv in H.
  destruct H as (positions & lo & hi & st & M & m & _ & _ & _ & Hloop & _ & _ & ->).
  destruct (loop_reaches _ _ _ 0 i _ Hloop Hnth Hskip) as (s & s' & after & Hd & Hax).
  simpl in Hd.
  destruct (draw_camera_frustum _ _ _ _ _ Hshow Hd)
    as (p & surf & corners & lines & before & p0 & p1 & p2
        & Hp & Hf & Hl & Hp0 & Hp1 & Hp2 & Hs').
  cbv [translation column firstn mapM getitem nth_error bind] in Hp. ok_inv Hp.
  simpl in Hp0, Hp1, Hp2. ok_inv Hp0. ok_inv Hp1. ok_inv Hp2.
  destruct (frustum_inv _ _ _ Hf) as (? & ? & ? & ? & ? & ? & ? & _ & _ & _ & _ & _ & H4 & H3).
  destruct corners as [| c0 [| c1 [| c2 [| c3 [| c4 cs]]]]]; try discriminate.
  inversion H3 as [| ? ? L0 H3a]; subst.
  inversion H3a as [| ? ? L1 H3b]; subst.
  inversion H3b as [| ? ? L2 H3c]; subst.
  inversion H3c as [| ? ? L3 _]; subst.
  rewrite (vec3_shape c0 L0), (vec3_shape c1 L1), (vec3_shape c2 L2),
    (vec3_shape c3 L3) in Hl.
  cbv [mapM segment getitem nth_error bind] in Hl. ok_inv Hl.
  exists surf, c0, c1, c2, c3, before. eexists.
  split; [exact Hf |].
  simpl figure. rewrite Hax, Hs'. unfold frustum_edge.
  rewrite <- !app_assoc. simpl. reflexivity.
Qed.

Lemma frustum_edges_from_camera_witness :
  vis C4_data.self (Sample.disk 8) (Sample.constant 0.5) = Ok C4_data.shown
  /\ exists surf c0 c1 c2 c3 before after,
       figure C4_data.shown
       = before
         ++ [ surf;
              frustum_edge 2 0 0 c0; frustum_edge 2 0 0 c1;
              frustum_edge 2 0 0 c2; frustum_edge 2 0 0 c3;
              text 2 0 0 "2" black 10 ]
         ++ after.
Proof.
  split; [vm_compute; reflexivity |].
  destruct (@frustum_edges_from_camera C4_data.self (Sample.disk 8)
              (Sample.constant 0.5) C4_data.shown 2%nat
              1 0 0 2 0 1 0 0 0 0 1 0 [])
    as (surf & c0 & c1 & c2 & c3 & before & after & _ & Hfig).
  - vm_compute; reflexivity.
  - reflexivity.
  - reflexivity.
  - reflexivity.
  - exists surf, c0, c1, c2, c3, before, after. exact Hfig.
Defined.

(** ** The frustum surface *)

Lemma chunks_length (A : Type) (h w : nat) (l : list A) :
  length (chunks h w l) = h.
Proof.
  revert l; induction h as [| h IH]; intros l; simpl; [reflexivity |].
  rewrite IH. reflexivity.
Qed.

Lemma chunks_rows (A : Type) (h w : nat) (l : list A) :
  length l = (h * w)%nat -> Forall (fun row => length row = w) (chunks h w l).
Proof.
  revert l; induction h as [| h IH]; intros l Hl; simpl; constructor.
  - rewrite length_firstn. simpl in Hl. lia.
  - apply IH. rewrite length_skipn. simpl in Hl. lia.
Qed.

Lemma chunks_concat (A : Type) (h w : nat) (l : list A) :
  length l = (h * w)%nat -> concat (chunks h w l) = l.
Proof.
  revert l; induction h as [| h IH]; intros l Hl; simpl.
  - destruct l; [reflexivity | discriminate].
  - rewrite IH by (rewrite length_skipn; simpl in Hl; lia).
    apply firstn_skipn.
Qed.

Lemma reshape_inv (A : Type) (h w : nat) (g o : list (list A)) :
  reshape h w g = Ok o ->
  length o = h /\ Forall (fun row => length row = w) o /\ concat o = concat g.
Proof.
  unfold reshape. destruct (length (concat g) =? h * w)%nat eqn:E; [| discriminate].
  apply Nat.eqb_eq in E. intros H. injection H as <-.
  split; [apply chunks_length |].
  split; [apply chunks_rows | apply chunks_concat]; assumption.
Qed.

Lemma reshape_mismatch (A : Type) (h w : nat) (g : list (list A)) :
  length (concat g) <> (h * w)%nat -> reshape h w g = Raise RuntimeError.
Proof.
  intros H. unfold reshape. apply Nat.eqb_neq in H. rewrite H. reflexivity.
Qed.

Lemma corners_of_inv (o : list (list vec3)) (w : nat) (cs : list vec) :
  Forall (fun row => length row = w) o ->
  corners_of o = Ok cs ->
  (1 <= length o)%nat /\ (1 <= w)%nat
  /\ exists c00 ch0 c0w chw,
       nth2 o 0 0 = Some c00
       /\ nth2 o (length o - 1) 0 = Some ch0
       /\ nth2 o 0 (w - 1) = Some c0w
       /\ nth2 o (length o - 1) (w - 1) = Some chw
       /\ cs = map vec_of [c00; ch0; c0w; chw].
Proof.
  intros Hrows H. unfold corners_of, getlast in H.
  bind_inv H. bind_inv H. bind_inv H. bind_inv H. bind_inv H. bind_inv H.
  ok_inv H. rewrite getitem_Ok in *.
  rewrite Forall_forall in Hrows.
  pose proof (Hrows _ (nth_error_In _ _ E)) as W0.
  pose proof (Hrows _ (nth_error_In _ _ E0)) as W1.
  rewrite W0 in E3. rewrite W1 in E4.
  assert (H1 : (0 < length o)%nat) by (apply nth_error_Some; rewrite E; discriminate).
  assert (H2 : (0 < length a)%nat) by (apply nth_error_Some; rewrite E1; discriminate).
  split; [lia |]. split; [lia |].
  exists a1, a2, a3, a4. unfold nth2. rewrite E, E0. auto.
Qed.

Lemma frustum_full (self : Runner) (fs : FileSystem) (i : nat)
  (surf : artist) (corners : list vec) :
  frustum self fs i = Ok (surf, corners) ->
  exists path img coords' img' origins,
    nth_error (image_filenames self) i = Some path
    /\ load_image fs path = Ok img
    /\ stride2 (image_downsample_factor (config self))
         (get_image_coords (cameras self)) = Ok coords'
    /\ stride2 (image_downsample_factor (config self)) img = Ok img'
    /\ reshape (length img') (length (hd [] img'))
         (map (map (point_at (image_plane (config self))))
            (generate_rays (cameras self) i coords')) = Ok origins
    /\ corners_of origins = Ok corners
    /\ surf = plot_surface (map (map (fun p => fst (fst p))) origins)
                (map (map (fun p => snd (fst p))) origins)
                (map (map (fun p => snd p)) origins) img'.
Proof.
  unfold frustum. intros H.
  bind_inv H. bind_inv H. bind_inv H. bind_inv H. bind_inv H. bind_inv H.
  ok_inv H. apply getitem_Ok in E.
  exists a, a0, a1, a2, a3. auto 10.
Qed.


Module Frustum_data.
Import Sample.

Definition self : Runner := runner (cfg 1 0 2 None true) line3.

Definition surface_and_corners : artist * list vec :=
  Eval vm_compute in
    match frustum self (disk 3) 1 with
    | Ok r => r
    | Raise _ => (set_xlabel "", [])
    end.

End Frustum_data.


(** ** Image loading *)

Definition height (im : PilImage) : nat := length (bands im).

Definition width (im : PilImage) : nat := length (hd [] (bands im)).

(** The bands per pixel that reach [ToTensor]: an RGBA image is converted
    to RGB first. *)
Definition depth (im : PilImage) : nat :=
  let c := length (hd [] (hd [] (bands im))) in
  if String.eqb (mode im) "RGBA" then Nat.min 3 c else c.

Lemma nth2_map (A B : Type) (f : A -> B) (g : list (list A)) (a b : nat) :
  nth2 (map (map f) g) a b = option_map f (nth2 g a b).
Proof.
  unfold nth2. rewrite nth_error_map.
  destruct (nth_error g a); simpl; [apply nth_error_map | reflexivity].
Qed.

Lemma hd_map_map (A B : Type) (f : list A -> list B) (g : list (list (list A))) :
  f [] = [] -> hd [] (hd [] (map (map f) g)) = f (hd [] (hd [] g)).
Proof.
  intros Hf. destruct g as [| [| px row] g]; simpl; auto.
Qed.

Lemma hd_map_length (A B : Type) (f : A -> B) (g : list (list A)) :
  length (hd [] (map (map f) g)) = length (hd [] g).
Proof.
  destruct g as [| row g]; simpl; [reflexivity | apply length_map].
Qed.

Lemma to_hwc_converted (im : PilImage) :
  to_hwc (if String.eqb (mode im) "RGBA" then convert_RGB im else im)
  = if (height im =? 1)%nat || (width im =? 1)%nat || (depth im =? 1)%nat
    then Raise RuntimeError
    else Ok (map (map (fun px =>
                         map to_float
                           (if String.eqb (mode im) "RGBA" then firstn 3 px else px)))
               (bands im)).
Proof.
  unfold to_hwc, height, width, depth.
  destruct (String.eqb (mode im) "RGBA"); cbn [convert_RGB bands mode].
  - rewrite length_map, hd_map_length, hd_map_map, length_firstn by reflexivity.
    destruct (_ || _ || _); [reflexivity |].
    rewrite map_map. f_equal. apply map_ext. intros row. apply map_map.
  - destruct (_ || _ || _); reflexivity.
Qed.

(** X7: what [load_image] returns.  A missing file raises
    [FileNotFoundError].  A file whose image has height 1, width 1 or a
    single band (after RGBA is converted to RGB) raises [RuntimeError],
    because [squeeze] removes that dimension before the 3-index
    [permute].  Every other image loads, with the file's dimensions. *)
Theorem load_image_outcome (fs : FileSystem) (path : string) :
  (fs path = None -> load_image fs path = Raise FileNotFoundError)
  /\ (forall im, fs path = Some im ->
        height im = 1%nat \/ width im = 1%nat \/ depth im = 1%nat ->
        load_image fs path = Raise RuntimeError)
  /\ (forall im, fs path = Some im ->
        height im <> 1%nat -> width im <> 1%nat -> depth im <> 1%nat ->
        exists img, load_image fs path = Ok img
                    /\ length img = height im
                    /\ length (hd [] img) = width im).
Proof.
  unfold load_image, Image_open. split; [| split].
  - intros ->. reflexivity.
  - intros im -> Hdim. simpl. rewrite to_hwc_converted.
    assert (E : (height im =? 1)%nat || (width im =? 1)%nat || (depth im =? 1)%nat = true).
    { rewrite !orb_true_iff, !Nat.eqb_eq. tauto. }
    rewrite E. reflexivity.
  - intros im -> Hh Hw Hd. simpl. rewrite to_hwc_converted.
    apply Nat.eqb_neq in Hh, Hw, Hd. rewrite Hh, Hw, Hd. simpl.
    eexists. split; [reflexivity |]. unfold add_alpha, height, width.
    rewrite !hd_map_length, !length_map. auto.
Qed.

Lemma load_image_outcome_witness :
  exists img, load_image (Sample.disk 3) "frame_1.png" = Ok img
              /\ length img = 2%nat /\ length (hd [] img) = 3%nat.
Proof.
  destruct (load_image_outcome (Sample.disk 3) "frame_1.png") as (_ & _ & Hok).
  apply (Hok Sample.rgb_image); [reflexivity | | |]; vm_compute; discriminate.
Defined.

Lemma to_float_range (b : N) : (b <= 255)%N -> 0 <= to_float b /\ to_float b <= 1.
Proof.
  intros H. unfold to_float, Qle. simpl. lia.
Qed.

(** X8: the pixels of a loaded image.  Pixel [(a, b)] holds the bands of
    pixel [(a, b)] of the file divided by 255, followed by the constant
    alpha 0.5; for an RGBA file only the first three bands are kept, so
    the file's own alpha never reaches the figure.  With 8-bit bands every
    colour value lies in [[0, 1]]. *)
Theorem load_image_pixels (fs : FileSystem) (path : string) (im : PilImage)
  (img : list (list vec)) :
  fs path = Some im ->
  load_image fs path = Ok img ->
  (forall a b,
      nth2 img a b
      = option_map
          (fun px => map to_float
                       (if String.eqb (mode im) "RGBA" then firstn 3 px else px)
                     ++ [0.5])
          (nth2 (bands im) a b))
  /\ (Forall (Forall (Forall (fun v => (v <= 255)%N))) (bands im) ->
      forall a b px, nth2 img a b = Some px ->
                     Forall (fun v => 0 <= v /\ v <= 1) px).
Proof.
  intros Hfs H. unfold load_image, Image_open in H. rewrite Hfs in H. simpl in H.
  rewrite to_hwc_converted in H.
  destruct (_ || _ || _); [discriminate |]. simpl in H. injection H as <-.
  assert (Hpx : forall a b,
             nth2 (add_alpha
                     (map (map (fun px =>
                                  map to_float
                                    (if String.eqb (mode im) "RGBA"
                                     then firstn 3 px else px)))
                        (bands im))) a b
             = option_map
                 (fun px => map to_float
                              (if String.eqb (mode im) "RGBA" then firstn 3 px else px)
                            ++ [0.5])
                 (nth2 (bands im) a b)).
  { intros a b. unfold add_alpha. rewrite !nth2_map.
    destruct (nth2 (bands im) a b); reflexivity. }
  split; [exact Hpx |].
  intros Hbytes a b px Hnth. rewrite Hpx in Hnth.
  destruct (nth2 (bands im) a b) as [raw |] eqn:Hraw; [| discriminate].
  simpl in Hnth. injection Hnth as <-.
  assert (Hraw8 : Forall (fun v => (v <= 255)%N) raw).
  { unfold nth2 in Hraw. destruct (nth_error (bands im) a) as [row |] eqn:Hrow;
      [| discriminate].
    rewrite Forall_forall in Hbytes.
    pose proof (Hbytes _ (nth_error_In _ _ Hrow)) as Hr.
    rewrite Forall_forall in Hr. exact (Hr _ (nth_error_In _ _ Hraw)). }
  apply Forall_app. split.
  - apply Forall_map.
    assert (Hsub : Forall (fun v => (v <= 255)%N)
                     (if String.eqb (mode im) "RGBA" then firstn 3 raw else raw)).
    { destruct (String.eqb (mode im) "RGBA"); [| assumption].
      rewrite <- (firstn_skipn 3 raw) in Hraw8.
      apply Forall_app in Hraw8. tauto. }
    eapply Forall_impl; [| exact Hsub]. intros v Hv. apply to_float_range. assumption.
  - repeat constructor; unfold Qle; simpl; lia.
Qed.

Module Rgba_data.

Definition rgba_image : PilImage :=
  {| mode := "RGBA";
     bands := [ [[255; 0; 0; 7]; [0; 255; 0; 7]];
                [[0; 0; 255; 7]; [51; 102; 204; 7]] ]%N |}.

Definition disk : FileSystem :=
  fun path => if String.eqb path "a.png" then Some rgba_image else None.

Definition loaded : list (list vec) :=
  Eval vm_compute in
    match load_image disk "a.png" with Ok img => img | Raise _ => [] end.

End Rgba_data.

Lemma load_image_pixels_witness :
  load_image Rgba_data.disk "a.png" = Ok Rgba_data.loaded
  /\ nth2 Rgba_data.loaded 1 1 = Some [51 # 255; 102 # 255; 204 # 255; 0.5].
Proof.
  split; [vm_compute; reflexivity |].
  destruct (@load_image_pixels Rgba_data.disk "a.png" Rgba_data.rgba_image
              Rgba_data.loaded) as [Hpx _].
  - reflexivity.
  - vm_compute; reflexivity.
  - rewrite Hpx. reflexivity.
Defined.

(** ** The downsample factor at its limits *)

Lemma stride2_nonpositive (A : Type) (k : Z) (g : list (list A)) :
  (k <= 0)%Z -> stride2 k g = Raise ValueError.
Proof.
  intros Hk. unfold stride2. rewrite stride_nonpositive by assumption. reflexivity.
Qed.

Lemma draw_camera_bad_factor (self : Runner) (fs : FileSystem) (i : nat)
  (camera_pose : mat) (s : LoopState) :
  (image_downsample_factor (config self) <= 0)%Z ->
  show_image (config self) = true ->
  exists e, draw_camera self fs i camera_pose s = Raise e.
Proof.
  intros Hk Hshow.
  destruct (draw_camera self fs i camera_pose s) as [s' |] eqn:E;
    [| eexists; reflexivity].
  apply draw_camera_inv in E. destruct E. rewrite Hshow in Hmid.
  destruct Hmid as (surf & corners & lines & Hf & _).
  apply frustum_inv in Hf.
  destruct Hf as (? & ? & ? & ? & ? & ? & ? & _ & _ & Hc & _).
  rewrite stride2_nonpositive in Hc by assumption. discriminate.
Qed.

(** X9: a downsample factor of zero or less is not rejected up front: with
    [show_image] true the call raises as soon as one camera passes the
    skip test, and shows no figure. *)
Theorem nonpositive_factor_raises (self : Runner) (fs : FileSystem)
  (g : RandomState) (i : nat) (camera_pose : mat) :
  (image_downsample_factor (config self) <= 0)%Z ->
  show_image (config self) = true ->
  nth_error (camera_to_worlds (cameras self)) i = Some camera_pose ->
  skip_test (config self) (g i) i = false ->
  exists e, vis self fs g = Raise e.
Proof.
  intros Hk Hshow Hnth Hskip.
  apply (@vis_Raise_at self fs g i camera_pose Hnth).
  intros s Hs. rewrite loop_body_draw by (rewrite Hs; assumption).
  apply draw_camera_bad_factor; assumption.
Qed.

Module Factor_data.
Import Sample.

Definition self : Runner := runner (cfg 0 0 1 None true) line3.

End Factor_data.

Lemma nonpositive_factor_raises_witness :
  exists e, vis Factor_data.self (Sample.disk 3) (Sample.constant 0.5) = Raise e.
Proof.
  apply (@nonpositive_factor_raises Factor_data.self (Sample.disk 3)
           (Sample.constant 0.5) 0%nat (Sample.pose_at 0 0 0)).
  - simpl; lia.
  - reflexivity.
  - reflexivity.
  - reflexivity.
Defined.

Lemma every_none (A : Type) (k' : nat) (l : list A) :
  forall j, (length l <= j)%nat -> every k' j l = [].
Proof.
  induction l as [| x l IH]; intros j Hj; simpl; [reflexivity |].
  destruct j as [| j]; simpl in Hj; [lia |]. apply IH. lia.
Qed.

Lemma stride_first (A : Type) (k : Z) (x : A) (t : list A) :
  (Z.of_nat (length (x :: t)) <= k)%Z -> stride k (x :: t) = Ok [x].
Proof.
  intros Hk. simpl length in Hk. unfold stride.
  destruct (k <=? 0)%Z eqn:E; [apply Z.leb_le in E; lia |].
  simpl. rewrite every_none by lia. reflexivity.
Qed.

Lemma singleton_grid (A : Type) (o : list (list A)) :
  length o = 1%nat -> Forall (fun row => length row = 1%nat) o ->
  exists p, o = [[p]].
Proof.
  destruct o as [| [| p [| q row]] [| r o]]; simpl; intros H1 H2; try discriminate;
    inversion H2 as [| ? ? Hrow _]; try discriminate.
  exists p. reflexivity.
Qed.

(** X10: a downsample factor at least as large as both image dimensions
    keeps the single pixel [(0, 0)]: the surface is one point, and the four
    frustum corners coincide. *)
Theorem coarse_factor_single_point (self : Runner) (fs : FileSystem) (i : nat)
  (path : string) (img : list (list vec)) (surf : artist) (corners : list vec) :
  nth_error (image_filenames self) i = Some path ->
  load_image fs path = Ok img ->
  (Z.of_nat (length img) <= image_downsample_factor (config self))%Z ->
  (Z.of_nat (length (hd [] img)) <= image_downsample_factor (config self))%Z ->
  frustum self fs i = Ok (surf, corners) ->
  exists (p : vec3) (px : vec),
    nth2 img 0 0 = Some px
    /\ surf = plot_surface [[fst (fst p)]] [[snd (fst p)]] [[snd p]] [[px]]
    /\ corners = [vec_of p; vec_of p; vec_of p; vec_of p].
Proof.
  intros Hpath Himg Hh Hw H.
  destruct (frustum_full _ _ _ H)
    as (path' & img0 & coords' & img' & origins & Hp' & Hl' & _ & Hs & Hr & Hcs & Hsurf).
  rewrite Hpath in Hp'. injection Hp' as <-.
  rewrite Himg in Hl'. injection Hl' as <-.
  destruct (reshape_inv _ _ _ Hr) as (Hlen & Hrows & _).
  destruct (corners_of_inv Hrows Hcs) as (H1 & H2 & _).
  destruct img as [| row0 rest].
  { unfold stride2, stride in Hs. destruct (_ <=? 0)%Z; [discriminate |].
    simpl in Hs. injection Hs as <-. simpl in Hlen. lia. }
  unfold stride2 in Hs. rewrite stride_first in Hs by assumption.
  simpl in Hs. bind_inv Hs. injection Hs as <-. simpl in Hw, H2.
  destruct row0 as [| px row0].
  { unfold stride in E. destruct (_ <=? 0)%Z; [discriminate |].
    simpl in E. injection E as <-. simpl in H2. lia. }
  rewrite stride_first in E by assumption. injection E as <-.
  simpl in Hlen, Hrows.
  destruct (singleton_grid Hlen Hrows) as [p ->].
  cbv [corners_of getlast getitem nth_error length Nat.sub bind] in Hcs.
  injection Hcs as <-.
  exists p, px. split; [reflexivity |]. split; [exact Hsurf | reflexivity].
Qed.

Module Coarse_data.
Import Sample.

Definition self : Runner := runner (cfg 5 0 1 None true) line3.

Definition surface_and_corners : artist * list vec :=
  Eval vm_compute in
    match frustum self (disk 3) 2 with
    | Ok r => r
    | Raise _ => (set_xlabel "", [])
    end.

Definition loaded : list (list vec) :=
  Eval vm_compute in
    match load_image (disk 3) "frame_2.png" with Ok img => img | Raise _ => [] end.

End Coarse_data.

Lemma coarse_factor_single_point_witness :
  exists p : vec3,
    snd Coarse_data.surface_and_corners = [vec_of p; vec_of p; vec_of p; vec_of p].
Proof.
  destruct (@coarse_factor_single_point Coarse_data.self (Sample.disk 3) 2
              "frame_2.png" Coarse_data.loaded
              (fst Coarse_data.surface_and_corners)
              (snd Coarse_data.surface_and_corners))
    as (p & px & _ & _ & Hc).
  - reflexivity.
  - vm_compute; reflexivity.
  - simpl; lia.
  - simpl; lia.
  - vm_compute; reflexivity.
  - exists p. exact Hc.
Defined.

(** ** Runs without images *)

Lemma skip_test_plain (cfg : VisConfig) (sample : Q) (i : nat) :
  show_image cfg = false -> skip_test cfg sample i = Qltb sample (skip_probability cfg).
Proof.
  intros H. unfold skip_test. rewrite H, andb_false_r, orb_false_r. reflexivity.
Qed.

Lemma loop_plain_ext (self self' : Runner) (fs fs' : FileSystem)
  (camera_poses : list mat) :
  show_image (config self) = false ->
  show_image (config self') = false ->
  skip_probability (config self) = skip_probability (config self') ->
  image_plane (config self) = image_plane (config self') ->
  forall (i : nat) (st : LoopState),
    loop self fs i camera_poses st = loop self' fs' i camera_poses st.
Proof.
  intros Hs Hs' Hp Hplane.
  induction camera_poses as [| p rest IH]; intros i st; simpl; [reflexivity |].
  assert (Hb : loop_body self fs i p st = loop_body self' fs' i p st).
  { unfold loop_body. destruct (rand (rng st)) as [sample g'].
    rewrite !skip_test_plain, Hp by assumption.
    destruct (Qltb sample (skip_probability (config self'))); [reflexivity |].
    unfold draw_camera. rewrite Hs, Hs', Hplane. reflexivity. }
  rewrite Hb. destruct (loop_body self' fs' i p st); simpl; auto.
Qed.

(** X11: with [show_image] false the call uses the poses,
    [skip_probability], [image_plane] and the samples, and nothing else:
    [selected_frames], the downsample factor, the file names, the file
    system and the ray generator do not influence the result. *)
Theorem plain_run_inputs (self self' : Runner) (fs fs' : FileSystem)
  (g : RandomState) :
  show_image (config self) = false ->
  show_image (config self') = false ->
  camera_to_worlds (cameras self) = camera_to_worlds (cameras self') ->
  skip_probability (config self) = skip_probability (config self') ->
  image_plane (config self) = image_plane (config self') ->
  vis self fs g = vis self' fs' g.
Proof.
  intros Hs Hs' Hposes Hp Hplane. unfold vis. rewrite <- Hposes.
  destruct (mapM translation (camera_to_worlds (cameras self))) as [positions |];
    simpl; [| reflexivity].
  destruct (reduce_dim0 Qmin positions) as [lo |]; simpl; [| reflexivity].
  destruct (reduce_dim0 Qmax positions) as [hi |]; simpl; [| reflexivity].
  rewrite (loop_plain_ext self self' fs fs' _ Hs Hs' Hp Hplane). reflexivity.
Qed.

Module Plain_data.
Import Sample.

(** Same poses, probability and image plane as [Plain_run.self]; another
    selection, another factor, no file names. *)
Definition other : Runner :=
  {| config := cfg 0 0 1 (Some [7]%Z) false;
     cameras := {| camera_to_worlds := line3;
                   get_image_coords := [];
                   generate_rays := fun _ _ => [] |};
     image_filenames := [] |}.

End Plain_data.

Lemma plain_run_inputs_witness :
  vis Plain_data.other (Sample.disk 3) (Sample.constant 0.5) = Ok Plain_run.shown.
Proof.
  rewrite <- (@plain_run_inputs Plain_run.self Plain_data.other
                Sample.empty_disk (Sample.disk 3) (Sample.constant 0.5));
    try reflexivity.
Defined.

(** ** Axis limits *)

Lemma loop_plain_bounds (self : Runner) (fs : FileSystem) (g : RandomState)
  (lo hi : vec) (camera_poses : list mat) (st : LoopState) :
  show_image (config self) = false ->
  loop self fs 0 camera_poses (initial_state g lo hi) = Ok st ->
  min_pos st = lo /\ max_pos st = hi.
Proof.
  intros Hshow H. apply loop_bounds in H.
  destruct H as (_ & css & Hcss & Hmin & Hmax).
  unfold rendered in Hcss. rewrite Hshow in Hcss. inversion Hcss; subst.
  simpl in Hmin, Hmax. injection Hmin as <-. injection Hmax as <-. auto.
Qed.

(** The limits of a run without images are computed from the poses. *)
Lemma plain_limits (self : Runner) (fs : FileSystem) (g : RandomState) (out : Shown) :
  show_image (config self) = false ->
  vis self fs g = Ok out ->
  exists positions lo hi m M cams,
    mapM translation (camera_to_worlds (cameras self)) = Ok positions
    /\ reduce_dim0 Qmin positions = Ok lo
    /\ reduce_dim0 Qmax positions = Ok hi
    /\ reduce_all Qmin lo = Ok m
    /\ reduce_all Qmax hi = Ok M
    /\ figure out = cams ++ world_axes (m * 0.9) (M * 1.1).
Proof.
  intros Hshow H. apply vis_inv in H.
  destruct H as (positions & lo & hi & st & M & m & Hp & Hlo & Hhi & Hloop & HM & Hm & ->).
  destruct (loop_plain_bounds _ _ _ _ _ _ Hshow Hloop) as [E1 E2].
  rewrite E1 in Hm. rewrite E2 in HM.
  exists positions, lo, hi, m, M, (ax st). auto 10.
Qed.

Lemma skipn_app_length (A : Type) (a b : list A) (n : nat) :
  length b = n -> skipn (length (a ++ b) - n) (a ++ b) = b.
Proof.
  intros <-. rewrite length_app.
  replace (length a + length b - length b)%nat with (length a) by lia.
  induction a as [| x a IH]; simpl; [reflexivity | assumption].
Qed.

(** The last nine artists of a figure: world axes, axis labels, limits. *)
Definition world_part (fig : list artist) : list artist :=
  skipn (length fig - 9) fig.

(** X12: without images the world axes and the axis limits do not depend
    on which cameras are skipped: two completed calls over the same poses
    end with the same nine artists, whatever their samples, skip
    probabilities and frame selections. *)
Theorem skipping_keeps_the_view (self self' : Runner) (fs fs' : FileSystem)
  (g g' : RandomState) (out out' : Shown) :
  show_image (config self) = false ->
  show_image (config self') = false ->
  camera_to_worlds (cameras self) = camera_to_worlds (cameras self') ->
  vis self fs g = Ok out ->
  vis self' fs' g' = Ok out' ->
  world_part (figure out) = world_part (figure out').
Proof.
  intros Hs Hs' Hposes H H'.
  destruct (plain_limits _ _ _ Hs H)
    as (positions & lo & hi & m & M & cams & Hp & Hlo & Hhi & Hm & HM & ->).
  destruct (plain_limits _ _ _ Hs' H')
    as (positions' & lo' & hi' & m' & M' & cams' & Hp' & Hlo' & Hhi' & Hm' & HM' & ->).
  rewrite <- Hposes, Hp in Hp'. injection Hp' as <-.
  rewrite Hlo in Hlo'. injection Hlo' as <-.
  rewrite Hhi in Hhi'. injection Hhi' as <-.
  rewrite Hm in Hm'. injection Hm' as <-.
  rewrite HM in HM'. injection HM' as <-.
  unfold world_part.
  rewrite (@skipn_app_length _ cams (world_axes (m * 0.9) (M * 1.1)) 9 eq_refl).
  rewrite (@skipn_app_length _ cams' (world_axes (m * 0.9) (M * 1.1)) 9 eq_refl).
  reflexivity.
Qed.

Module View_data.
Import Sample.

(** Every camera skipped. *)
Definition all_skipped : Runner := runner (cfg 5 1 1 None false) line3.

Definition shown : Shown :=
  Eval vm_compute in
    match vis all_skipped empty_disk (constant 0.5) with
    | Ok out => out
    | Raise _ => {| figure := []; console := []; skipped_frames := [] |}
    end.

End View_data.

Lemma skipping_keeps_the_view_witness :
  world_part (figure Plain_run.shown) = world_part (figure View_data.shown)
  /\ skipped_frames Plain_run.shown = []
  /\ skipped_frames View_data.shown = [0; 1; 2]%nat.
Proof.
  split; [| split; reflexivity].
  apply (@skipping_keeps_the_view Plain_run.self View_data.all_skipped
           Sample.empty_disk Sample.empty_disk
           (Sample.constant 0.5) (Sample.constant 0.5));
    try reflexivity; vm_compute; reflexivity.
Defined.

Lemma vle_lower (m : Q) (lo t : vec) :
  vle lo t -> Forall (fun c => m <= c) lo -> Forall (fun c => m <= c) t.
Proof.
  induction 1 as [| x y lo t Hxy _ IH]; intros H; [constructor |].
  inversion H; subst. constructor; [eapply Qle_trans; eassumption | auto].
Qed.

Lemma vle_upper (M : Q) (t hi : vec) :
  vle t hi -> Forall (fun c => c <= M) hi -> Forall (fun c => c <= M) t.
Proof.
  induction 1 as [| x y t hi Hxy _ IH]; intros H; [constructor |].
  inversion H; subst. constructor; [eapply Qle_trans; eassumption | auto].
Qed.

Lemma attained_In (b : vec) (rows : list vec) (x : Q) :
  attained b rows -> In x b -> In x (concat rows).
Proof.
  intros Hat Hin. apply In_nth_error in Hin. destruct Hin as [k Hk].
  destruct (Hat k) as (t & Ht & E). rewrite Hk in E. symmetry in E.
  apply nth_error_In in E. apply in_concat. exists t. auto.
Qed.

(** X13: the limits of a completed call without images, over well-shaped
    poses.  With [m] the least and [M] the greatest coordinate of all
    camera positions, the limits are [[0.9 m, 1.1 M]].  They contain every
    camera coordinate when [m >= 0]; but scaling a negative [m] by 0.9
    moves the lower limit above [m], and scaling a negative [M] by 1.1
    moves the upper limit below [M], so the extreme camera then lies
    outside the limits. *)
Theorem limits_and_camera_positions (self : Runner) (fs : FileSystem)
  (g : RandomState) (out : Shown) :
  Forall pose_ok (camera_to_worlds (cameras self)) ->
  show_image (config self) = false ->
  vis self fs g = Ok out ->
  exists (positions : list vec) (m M : Q) (cams : list artist),
    mapM translation (camera_to_worlds (cameras self)) = Ok positions
    /\ In m (concat positions) /\ Forall (fun c => m <= c) (concat positions)
    /\ In M (concat positions) /\ Forall (fun c => c <= M) (concat positions)
    /\ figure out = cams ++ world_axes (m * 0.9) (M * 1.1)
    /\ (0 <= m ->
        Forall (fun c => m * 0.9 <= c /\ c <= M * 1.1) (concat positions))
    /\ (m < 0 -> m < m * 0.9)
    /\ (M < 0 -> M * 1.1 < M).
Proof.
  intros Hok Hshow H.
  destruct (plain_limits _ _ _ Hshow H)
    as (positions & lo & hi & m & M & cams & Hp & Hlo & Hhi & Hm & HM & Hfig).
  destruct (positions_ok Hok) as (positions' & Hp' & Hlen).
  rewrite Hp in Hp'. injection Hp' as <-.
  destruct (reduce_all_min _ Hm) as [Hm1 Hm2].
  destruct (reduce_all_max _ HM) as [HM1 HM2].
  pose proof (reduce_dim0_min_le Hlen Hlo) as Hlow.
  pose proof (reduce_dim0_max_ge Hlen Hhi) as Hupp.
  assert (Hlo_at : attained lo positions)
    by (eapply reduce_dim0_attained; eauto using Qmin_cases).
  assert (Hhi_at : attained hi positions)
    by (eapply reduce_dim0_attained; eauto using Qmax_cases).
  assert (Hall_m : Forall (fun c => m <= c) (concat positions)).
  { apply Forall_concat. rewrite Forall_forall in *. intros t Ht.
    apply (@vle_lower m lo t (Hlow t Ht)).
    apply Forall_forall. assumption. }
  assert (Hall_M : Forall (fun c => c <= M) (concat positions)).
  { apply Forall_concat. rewrite Forall_forall in *. intros t Ht.
    apply (@vle_upper M t hi (Hupp t Ht)).
    apply Forall_forall. assumption. }
  exists positions, m, M, cams.
  split; [assumption |].
  split; [exact (@attained_In lo positions m Hlo_at Hm1) |]. split; [assumption |].
  split; [exact (@attained_In hi positions M Hhi_at HM1) |]. split; [assumption |].
  split; [assumption |].
  split; [| split].
  - intros Hpos. rewrite Forall_forall in *. intros c Hc.
    pose proof (Hall_m c Hc). pose proof (Hall_M c Hc). split; lra.
  - intros Hneg. lra.
  - intros Hneg. lra.
Qed.

Module Negative_data.
Import Sample.

(** One camera left of the origin. *)
Definition poses : list mat := [pose_at (-10) 1 1; pose_at 2 1 1].

Definition self : Runner := runner (cfg 5 0 1 None false) poses.

Definition shown : Shown :=
  Eval vm_compute in
    match vis self empty_disk (constant 0.5) with
    | Ok out => out
    | Raise _ => {| figure := []; console := []; skipped_frames := [] |}
    end.

End Negative_data.

Lemma limits_and_camera_positions_witness :
  vis Negative_data.self Sample.empty_disk (Sample.constant 0.5) = Ok Negative_data.shown
  /\ In (set_xlim (-10 * 0.9) (2 * 1.1)) (figure Negative_data.shown)
  /\ exists (m : Q), m == -10 /\ m < m * 0.9.
Proof.
  split; [vm_compute; reflexivity |].
  split; [vm_compute; tauto |].
  destruct (@limits_and_camera_positions Negative_data.self Sample.empty_disk
              (Sample.constant 0.5) Negative_data.shown)
    as (positions & m & M & cams & Hp & Hm & Hall & _ & _ & _ & _ & Hneg & _).
  - unfold pose_ok. repeat constructor; simpl; lia.
  - reflexivity.
  - vm_compute; reflexivity.
  - vm_compute in Hp. injection Hp as <-.
    assert (E : m == -10).
    { apply Qle_antisym.
      - rewrite Forall_forall in Hall. apply Hall. simpl. auto.
      - simpl in Hm. destruct Hm as [<- | [<- | [<- | [<- | [<- | [<- | []]]]]]];
          unfold Qle; simpl; lia. }
    exists m. split; [exact E |]. apply Hneg. rewrite E. reflexivity.
Defined.

(** ** Frustum corners and the bounds *)

Lemma expand_min_below (n : nat) (cs : list vec) :
  Forall (fun c => length c = n) cs ->
  forall b b', length b = n -> expand Qmin b cs = Ok b' ->
               Forall (fun c => vle b' c) cs.
Proof.
  induction 1 as [| c cs Hc Hcs IH]; intros b b' Hb H; simpl in H; [constructor |].
  rewrite broadcast2_same_length in H by congruence. simpl in H.
  destruct (zip_min_le b c) as [_ Hle]; [congruence |].
  assert (Hl : length (zip_with Qmin b c) = n)
    by (rewrite zip_with_length; congruence).
  destruct (expand_min_le Hcs _ Hl H) as [Hle' _].
  constructor; [eapply vle_trans; eassumption | eapply IH; eassumption].
Qed.

Lemma expand_max_above (n : nat) (cs : list vec) :
  Forall (fun c => length c = n) cs ->
  forall b b', length b = n -> expand Qmax b cs = Ok b' ->
               Forall (fun c => vle c b') cs.
Proof.
  induction 1 as [| c cs Hc Hcs IH]; intros b b' Hb H; simpl in H; [constructor |].
  rewrite broadcast2_same_length in H by congruence. simpl in H.
  destruct (zip_max_ge b c) as [_ Hle]; [congruence |].
  assert (Hl : length (zip_with Qmax b c) = n)
    by (rewrite zip_with_length; congruence).
  destruct (expand_max_ge Hcs _ Hl H) as [Hle' _].
  constructor; [eapply vle_trans; eassumption | eapply IH; eassumption].
Qed.

Lemma Forall2_In_left (A B : Type) (R : A -> B -> Prop) (l : list A) (l' : list B)
  (x : A) :
  Forall2 R l l' -> In x l -> exists y, In y l' /\ R x y.
Proof.
  induction 1 as [| a b l l' Hab _ IH]; simpl; [tauto |].
  intros [-> | Hin]; [eauto |]. destruct (IH Hin) as (y & Hy & Hr). eauto.
Qed.

(** X14: after a completed loop over well-shaped poses, the bounds enclose
    the four frustum corners of every camera that was drawn with its
    image. *)
Theorem bounds_enclose_frustum_corners (self : Runner) (fs : FileSystem)
  (g : RandomState) (positions : list vec) (lo hi : vec) (st : LoopState) :
  Forall pose_ok (camera_to_worlds (cameras self)) ->
  mapM translation (camera_to_worlds (cameras self)) = Ok positions ->
  reduce_dim0 Qmin positions = Ok lo ->
  reduce_dim0 Qmax positions = Ok hi ->
  loop self fs 0 (camera_to_worlds (cameras self)) (initial_state g lo hi) = Ok st ->
  forall i surf corners,
    (i < length (camera_to_worlds (cameras self)))%nat ->
    show_image (config self) = true ->
    skip_test (config self) (g i) i = false ->
    frustum self fs i = Ok (surf, corners) ->
    Forall (fun c => vle (min_pos st) c /\ vle c (max_pos st)) corners.
Proof.
  intros Hok Hp Hlo Hhi Hloop i surf corners Hi Hshow Hskip Hf.
  destruct (positions_ok Hok) as (positions' & Hp' & Hlen).
  rewrite Hp in Hp'. injection Hp' as <-.
  assert (Hne : positions <> []) by (intros ->; discriminate).
  destruct (reduce_dim0_length Qmin Hne Hlen) as (lo' & Hlo' & Llo).
  rewrite Hlo in Hlo'. injection Hlo' as <-.
  destruct (reduce_dim0_length Qmax Hne Hlen) as (hi' & Hhi' & Lhi).
  rewrite Hhi in Hhi'. injection Hhi' as <-.
  destruct (loop_bounds _ _ _ _ _ _ Hloop) as (_ & css & Hcss & Hmin & Hmax).
  assert (H3 : Forall (fun c => length c = 3%nat) (concat css)).
  { apply Forall_concat. clear Hmin Hmax.
    induction Hcss as [| j cs l l' [surf' Hf'] _ IH]; constructor; [| assumption].
    apply frustum_inv in Hf'.
    destruct Hf' as (? & ? & ? & ? & ? & ? & ? & _ & _ & _ & _ & _ & _ & Hc3).
    exact Hc3. }
  assert (Hin : In i (rendered self g (length (camera_to_worlds (cameras self))))).
  { unfold rendered. rewrite Hshow. apply filter_In. split; [apply in_seq; lia |].
    unfold kept, skips. rewrite Hskip. reflexivity. }
  destruct (@Forall2_In_left _ _ _ _ _ i Hcss Hin) as (cs & Hcs & surf' & Hf').
  rewrite Hf in Hf'. injection Hf' as _ <-.
  pose proof (expand_min_below H3 _ Llo Hmin) as Hbelow.
  pose proof (expand_max_above H3 _ Lhi Hmax) as Habove.
  rewrite Forall_forall in *. intros c Hc.
  assert (Hcc : In c (concat css)) by (apply in_concat; eauto).
  split; [apply Hbelow | apply Habove]; assumption.
Qed.

Module Corner_data.
Import Sample.

Definition surface_and_corners : artist * list vec :=
  Eval vm_compute in
    match frustum C4_data.self (disk 8) 5 with
    | Ok r => r
    | Raise _ => (set_xlabel "", [])
    end.

End Corner_data.

Lemma bounds_enclose_frustum_corners_witness :
  loop C4_data.self (Sample.disk 8) 0 Sample.line8
    (initial_state (Sample.constant 0.5) [0; 0; 0] [7; 0; 0]) = Ok Loop_data.after_c4
  /\ Forall (fun c => vle (min_pos Loop_data.after_c4) c
                      /\ vle c (max_pos Loop_data.after_c4))
       (snd Corner_data.surface_and_corners).
Proof.
  split; [vm_compute; reflexivity |].
  apply (@bounds_enclose_frustum_corners C4_data.self (Sample.disk 8)
           (Sample.constant 0.5)
           (map (fun i => [inject_Z (Z.of_nat i); 0; 0]) (seq 0 8))
           [0; 0; 0] [7; 0; 0] Loop_data.after_c4
           ltac:(unfold pose_ok; repeat constructor; simpl; lia)
           eq_refl eq_refl eq_refl ltac:(vm_compute; reflexivity) 5%nat
           (fst Corner_data.surface_and_corners)).
  - simpl; lia.
  - reflexivity.
  - reflexivity.
  - vm_compute; reflexivity.
Defined.

(** ** The default configuration, lines 20-29 *)

Definition default_config : VisConfig :=
  {| image_downsample_factor := 5;
     skip_probability := 0.0;
     image_plane := 1.0;
     selected_frames := None;
     show_image := false |}.


Module Default_data.
Import Sample.

Definition self : Runner := runner default_config line3.

End Default_data.


(** ** A selection without a valid index *)



Module Selection_data.
Import Sample.

Definition self : Runner := runner (cfg 5 0 1 (Some [-1; 3; 99]%Z) true) line3.

End Selection_data.


(** ** Camera resolution against image resolution *)

Lemma concat_rect_length (A : Type) (w : nat) (g : list (list A)) :
  Forall (fun row => length row = w) g -> length (concat g) = (length g * w)%nat.
Proof.
  induction 1 as [| row g Hrow _ IH]; simpl; [reflexivity |].
  rewrite length_app, IH, Hrow. reflexivity.
Qed.

Lemma rect_area (A : Type) (g : list (list A)) (h w : Z) :
  Z.of_nat (length g) = h ->
  Forall (fun row => Z.of_nat (length row) = w) g ->
  Z.of_nat (length g * length (hd [] g)) = (h * w)%Z
  /\ Z.of_nat (length (concat g)) = (h * w)%Z.
Proof.
  intros Hh Hw. destruct g as [| row g].
  - simpl in *. subst h. split; reflexivity.
  - assert (Hrect : Forall (fun r => length r = length row) (row :: g)).
    { inversion Hw as [| ? ? Hr Hg]; subst.
      eapply Forall_impl; [| exact Hw]. simpl. intros r Hr'. lia. }
    rewrite (concat_rect_length Hrect). simpl hd.
    inversion Hw as [| ? ? Hr Hg]; subst.
    rewrite Nat2Z.inj_mul. split; reflexivity.
Qed.

(** X17: [frustum] assumes that the camera's pixel grid and the image file
    have matching sizes.  With a ray generator that returns one ray per
    coordinate, a factor [k >= 1], a pixel grid of [Hc x Wc] coordinates
    and an image of [Hi x Wi] pixels, it raises [RuntimeError] whenever
    [ceil(Hc/k) ceil(Wc/k)] differs from [ceil(Hi/k) ceil(Wi/k)]. *)
Theorem resolution_mismatch_raises (self : Runner) (fs : FileSystem) (i : nat)
  (path : string) (img : list (list vec)) (Wc Wi : nat) :
  (1 <= image_downsample_factor (config self))%Z ->
  nth_error (image_filenames self) i = Some path ->
  load_image fs path = Ok img ->
  Forall (fun row => length row = Wc) (get_image_coords (cameras self)) ->
  Forall (fun row => length row = Wi) img ->
  (forall coords,
      length (concat (generate_rays (cameras self) i coords)) = length (concat coords)) ->
  (ceil_div (length (get_image_coords (cameras self)))
     (image_downsample_factor (config self))
   * ceil_div Wc (image_downsample_factor (config self))
   <> ceil_div (length img) (image_downsample_factor (config self))
      * ceil_div Wi (image_downsample_factor (config self)))%Z ->
  frustum self fs i = Raise RuntimeError.
Proof.
  intros Hk Hpath Himg Hc Hi Hrays Hne.
  unfold frustum, getitem. rewrite Hpath. simpl. rewrite Himg. simpl.
  destruct (stride2_spec Hk Hc) as (coords' & -> & Hch & Hcw & _).
  destruct (stride2_spec Hk Hi) as (img' & -> & Hih & Hiw & _).
  simpl.
  rewrite reshape_mismatch; [reflexivity |].
  intros E. apply Hne.
  destruct (rect_area Hch Hcw) as [_ <-].
  destruct (rect_area Hih Hiw) as [<- _].
  rewrite <- E. f_equal.
  rewrite <- Hrays, <- concat_map, length_map. reflexivity.
Qed.

Module Mismatch_data.
Import Sample.

(** A 2 x 2 image for a camera with a 2 x 3 pixel grid. *)
Definition small_image : PilImage :=
  {| mode := "RGB";
     bands := [ [[255; 0; 0]; [0; 255; 0]];
                [[0; 0; 255]; [51; 102; 204]] ]%N |}.

Definition disk : FileSystem := fun _ => Some small_image.

Definition self : Runner := runner (cfg 1 0 1 None true) line3.

Definition loaded : list (list vec) :=
  Eval vm_compute in
    match load_image disk "frame_0.png" with Ok img => img | Raise _ => [] end.

End Mismatch_data.

Lemma resolution_mismatch_raises_witness :
  frustum Mismatch_data.self Mismatch_data.disk 0 = Raise RuntimeError.
Proof.
  apply (@resolution_mismatch_raises Mismatch_data.self Mismatch_data.disk 0
           "frame_0.png" Mismatch_data.loaded 3 2).
  - simpl; lia.
  - reflexivity.
  - vm_compute; reflexivity.
  - repeat constructor.
  - repeat constructor.
  - intros coords. simpl. unfold Sample.rays.
    rewrite <- !concat_map, !length_map. reflexivity.
  - vm_compute. discriminate.
Defined.
